(** * Spatial Color Slices: the per-frame reactive core

    A shallow embedding of the numeric, per-frame logic of the installation
    (spring physics, hand-signal extraction, mood selection, palette
    blending, audio feature smoothing and reactive lighting), followed by
    the properties that the design document states about it.

    The TypeScript sources compute on JavaScript numbers.  Every definition
    below is written once, over an interface [Number] of the operations the
    sources use, and is read at two instances:
    - [float], Rocq's primitive IEEE 754 binary64 numbers, which is what the
      program runs on and which evaluates on concrete inputs;
    - [R], the real numbers, the exact arithmetic in which the design
      document states its formulas and in which the general theorems are
      proved (rounding is outside their scope). *)

From Stdlib Require Import Floats.
From Stdlib Require Import ZArith Reals Lra Lia Psatz String.
From stdpp Require Import base option list.

(** ** JavaScript numbers *)

Module Num.

Class Number (A : Type) := {
  nadd : A -> A -> A;            (* a + b *)
  nsub : A -> A -> A;            (* a - b *)
  nmul : A -> A -> A;            (* a * b *)
  ndiv : A -> A -> A;            (* a / b *)
  nopp : A -> A;                 (* -a *)
  ngtb : A -> A -> bool;         (* a > b *)
  nmax : A -> A -> A;            (* Math.max(a, b) *)
  nmin : A -> A -> A;            (* Math.min(a, b) *)
  nsqrt : A -> A;                (* Math.sqrt(a) *)
  nabs : A -> A;                 (* Math.abs(a) *)
  npi : A;                       (* Math.PI *)
  of_Z : Z -> A                  (* an integer literal *)
}.

(** A decimal literal [n/d] with [d] a power of ten: [dec 15 100] is [0.15].
    Both integers are exact and the division rounds once, so on [float] this
    is the double the literal denotes. *)
Definition dec {A} `{Number A} (n d : Z) : A := ndiv (of_Z n) (of_Z d).

(** *** Real numbers *)

Definition Rgtb (a b : R) : bool := if Rlt_dec b a then true else false.

#[global] Instance RNumber : Number R := {|
  nadd := Rplus; nsub := Rminus; nmul := Rmult; ndiv := Rdiv; nopp := Ropp;
  ngtb := Rgtb; nmax := Rmax; nmin := Rmin; nsqrt := R_sqrt.sqrt; nabs := Rabs;
  npi := PI; of_Z := IZR |}.

(** *** IEEE 754 doubles *)

Definition float_of_Z (z : Z) : float :=
  match z with
  | Z0 => PrimFloat.zero
  | Zpos _ => PrimFloat.of_uint63 (Uint63.of_Z z)
  | Zneg p => PrimFloat.opp (PrimFloat.of_uint63 (Uint63.of_Z (Zpos p)))
  end.

Definition is_neg_zero (a : float) : bool :=
  PrimFloat.is_zero a && PrimFloat.get_sign a.

(** [Math.max] and [Math.min]: NaN when either argument is NaN, and [-0] is
    smaller than [+0]. *)
Definition float_max (a b : float) : float :=
  if PrimFloat.is_nan a then a
  else if PrimFloat.is_nan b then b
  else if PrimFloat.ltb a b then b
  else if PrimFloat.ltb b a then a
  else if is_neg_zero a then b else a.

Definition float_min (a b : float) : float :=
  if PrimFloat.is_nan a then a
  else if PrimFloat.is_nan b then b
  else if PrimFloat.ltb a b then a
  else if PrimFloat.ltb b a then b
  else if is_neg_zero a then a else b.

#[global] Instance FloatNumber : Number float := {|
  nadd := PrimFloat.add; nsub := PrimFloat.sub; nmul := PrimFloat.mul;
  ndiv := PrimFloat.div; nopp := PrimFloat.opp;
  ngtb := fun a b => PrimFloat.ltb b a;
  nmax := float_max; nmin := float_min;
  nsqrt := PrimFloat.sqrt; nabs := PrimFloat.abs;
  npi := 0x1.921fb54442d18p+1%float;
  of_Z := float_of_Z |}.

End Num.
Export Num.

(** A [for (let i = 0; i < n; i++) body] loop threading a state. *)
Definition for_loop {S : Type} (n : nat) (body : nat -> S -> S) (s : S) : S :=
  fold_left (fun acc i => body i acc) (seq 0 n) s.

(** ** constants.ts *)

Module Constants.

(** The keys of the [PALETTES] object. *)
Inductive Mood : Type := DEFAULT | JOY | SURPRISE | MOODY.

Definition PALETTES (m : Mood) : list string :=
  match m with
  | DEFAULT => ["#D7CEA3"; "#907826"; "#A46719"; "#CE3F0E"; "#1A0C47"]
  | JOY => ["#FF9AA2"; "#FFB7B2"; "#FFDAC1"; "#E2F0CB"; "#B5EAD7"]
  | SURPRISE => ["#00FF41"; "#008F11"; "#003B00"; "#D0F0C0"; "#39FF14"]
  | MOODY => ["#001219"; "#005f73"; "#0a9396"; "#94d2bd"; "#e9d8a6"]
  end%string.

(** [CONFIG.sliceCount] and [CONFIG.stackHeight]. *)
Definition CONFIG_sliceCount : nat := 60.
Definition CONFIG_stackHeight {A} `{Number A} : A := of_Z 12.

End Constants.
Export Constants.

(** ** The parts of three.js the components call *)

Module Three.
Section WithNumber.
Context {A : Type} `{Number A}.

(** [THREE.Color]: three channels. *)
Record Color := mkColor { r : A; g : A; b : A }.

(** [Color.lerp(color, alpha)]: each channel does
    [this.c += (color.c - this.c) * alpha]. *)
Definition Color_lerp (this color : Color) (alpha : A) : Color :=
  {| r := nadd (r this) (nmul (nsub (r color) (r this)) alpha);
     g := nadd (g this) (nmul (nsub (g color) (g this)) alpha);
     b := nadd (b this) (nmul (nsub (b color) (b this)) alpha) |}.

(** [THREE.MathUtils.lerp(x, y, t)] is [(1 - t) * x + t * y]. *)
Definition MathUtils_lerp (x y t : A) : A :=
  nadd (nmul (nsub (of_Z 1) t) x) (nmul t y).
End WithNumber.
Arguments Color A : clear implicits.
End Three.
Export Three.

(** ** ColorSlices.tsx: the spring class *)

Module Spring.
Section WithNumber.
Context {A : Type} `{Number A}.

Record SpringValue := mkSpring {
  value : A;
  target : A;
  velocity : A;
  stiffness : A;
  damping : A
}.

(** [constructor(initial, stiffness = 0.1, damping = 0.8)]. *)
Definition new_SpringValue (initial stiffness damping : A) : SpringValue :=
  {| value := initial; target := initial; velocity := of_Z 0;
     stiffness := stiffness; damping := damping |}.

Definition update (this : SpringValue) : SpringValue :=
  let force := nmul (nsub (target this) (value this)) (stiffness this) in
  let velocity' := nadd (nmul (velocity this) (damping this)) force in
  {| value := nadd (value this) velocity';
     target := target this;
     velocity := velocity';
     stiffness := stiffness this;
     damping := damping this |}.

(** [n] calls of [update] in a row. *)
Fixpoint update_n (n : nat) (this : SpringValue) : SpringValue :=
  match n with
  | O => this
  | S n' => update_n n' (update this)
  end.

(** Field assignments made from outside the class. *)
Definition set_target (t : A) (s : SpringValue) : SpringValue :=
  {| value := value s; target := t; velocity := velocity s;
     stiffness := stiffness s; damping := damping s |}.

Definition add_velocity (dv : A) (s : SpringValue) : SpringValue :=
  {| value := value s; target := target s; velocity := nadd (velocity s) dv;
     stiffness := stiffness s; damping := damping s |}.
End WithNumber.
Arguments SpringValue A : clear implicits.
End Spring.
Export Spring.

(** ** HandTracker.tsx: the published input frame and the hand logic *)

Module HandTracker.
Section WithNumber.
Context {A : Type} `{Number A}.

Record HandData := mkHand { present : bool; x : A; y : A; pinch : A }.
Record TwoHandsData := mkHands { left : HandData; right : HandData }.
(** [FaceData.present] is [face_present] here: [present] is taken. *)
Record FaceData := mkFace {
  face_present : bool; smile : A; mouthOpen : A; browDown : A }.
Record InputData := mkInput { hands : TwoHandsData; face : FaceData }.

(** What the detector returns: per detected hand a landmark array, and in
    a parallel array its handedness categories. *)
Record NormalizedLandmark := mkLandmark { lm_x : A; lm_y : A }.
Record Category := mkCategory { categoryName : string; score : A }.
Record HandLandmarkerResult := mkResult {
  landmarks : option (list (list NormalizedLandmark));
  handedness : list (list Category) }.

(** The [hands] part of the fresh [newData]. *)
Definition absentHand : HandData :=
  {| present := false; x := of_Z 0; y := of_Z 0; pinch := of_Z 0 |}.
Definition newHands : TwoHandsData :=
  {| left := absentHand; right := absentHand |}.

(** [Math.min(Math.max((distance - 0.02) / 0.15, 0), 1)]. *)
Definition pinchOf (distance : A) : A :=
  nmin (nmax (ndiv (nsub distance (dec 2 100)) (dec 15 100)) (of_Z 0))
       (of_Z 1).

Definition distanceOf (indexTip thumbTip : NormalizedLandmark) : A :=
  let dx := nsub (lm_x indexTip) (lm_x thumbTip) in
  let dy := nsub (lm_y indexTip) (lm_y thumbTip) in
  nsqrt (nadd (nmul dx dx) (nmul dy dy)).

(** The object [{ present: true, x, y, pinch }] built for one hand. *)
Definition handSignal (indexTip thumbTip : NormalizedLandmark) : HandData :=
  let distance := distanceOf indexTip thumbTip in
  let pinch := pinchOf distance in
  let x := nsub (nmul (nsub (of_Z 1) (lm_x indexTip)) (of_Z 2)) (of_Z 1) in
  let y := nopp (nsub (nmul (lm_y indexTip) (of_Z 2)) (of_Z 1)) in
  {| present := true; x := x; y := y; pinch := pinch |}.

(** The body of the loop at index [i].  Reading a field of [undefined]
    throws; the surrounding [try] catches it and the frame publishes
    nothing: that is [None]. *)
Definition handStep (res : HandLandmarkerResult) (i : nat)
    (lms : list NormalizedLandmark) (acc : TwoHandsData)
    : option TwoHandsData :=
  cats ← handedness res !! i;
  c ← cats !! 0%nat;
  indexTip ← lms !! 8%nat;
  thumbTip ← lms !! 4%nat;
  let h := handSignal indexTip thumbTip in
  Some (if String.eqb (categoryName c) "Left"
        then {| left := h; right := right acc |}
        else {| left := left acc; right := h |}).

Fixpoint handLoop (res : HandLandmarkerResult) (i : nat)
    (rest : list (list NormalizedLandmark)) (acc : TwoHandsData)
    : option TwoHandsData :=
  match rest with
  | [] => Some acc
  | lms :: rest' => acc' ← handStep res i lms acc; handLoop res (S i) rest' acc'
  end.

Definition handLogic (res : HandLandmarkerResult) : option TwoHandsData :=
  match landmarks res with
  | Some all => handLoop res 0 all newHands
  | None => Some newHands
  end.
End WithNumber.
Arguments HandData A : clear implicits.
Arguments TwoHandsData A : clear implicits.
Arguments FaceData A : clear implicits.
Arguments InputData A : clear implicits.
Arguments NormalizedLandmark A : clear implicits.
Arguments Category A : clear implicits.
Arguments HandLandmarkerResult A : clear implicits.
End HandTracker.
Export HandTracker.

(** ** App.tsx: the audio mode *)

Module App.
Inductive AudioMode : Type := OFF | MIC | THEREMIN.
End App.
Export App.

(** ** AudioManager.tsx: the smoothed audio features *)

Module AudioManager.
Section WithNumber.
Context {A : Type} `{Number A}.

Record AudioData := mkAudio { low : A; high : A; vol : A }.

(** What the component's callbacks read and write: the object held by
    [audioDataRef], whether [listener] (with its context) is there, and
    whether the analyser and its byte buffer have been created. *)
Record State := mkState {
  audioDataRef : AudioData;
  listener : bool;
  analyserRef : bool;
  dataArrayRef : bool }.

(** The effect that creates the analyser and its buffer. *)
Definition initAnalyser (st : State) : State :=
  if listener st
  then {| audioDataRef := audioDataRef st; listener := true;
          analyserRef := true; dataArrayRef := true |}
  else st.

(** The mode-switch effect, as far as the features go: the THEREMIN and
    MIC branches build audio nodes only, the last branch replaces the
    features object. *)
Definition setupAudio (audioMode : AudioMode) (st : State) : State :=
  if listener st then
    match audioMode with
    | THEREMIN => st
    | MIC => st
    | OFF =>
        {| audioDataRef := {| low := of_Z 0; high := of_Z 0; vol := of_Z 0 |};
           listener := listener st; analyserRef := analyserRef st;
           dataArrayRef := dataArrayRef st |}
    end
  else st.

Definition lerp (a b t : A) : A := nadd a (nmul (nsub b a) t).

(** [for (i = start; i < stop; i++) sum += dataArray[i]].  The buffer has
    [frequencyBinCount] = 256 bytes, so every index read is in range. *)
Definition sumBins (dataArray : list Z) (start stop : nat) : A :=
  fold_left (fun sum i => nadd sum (of_Z (default 0%Z (dataArray !! i))))
            (seq start (stop - start)) (of_Z 0).

Definition withData (d : AudioData) (st : State) : State :=
  {| audioDataRef := d; listener := listener st;
     analyserRef := analyserRef st; dataArrayRef := dataArrayRef st |}.

(** The per-frame callback; [dataArray] is what [getByteFrequencyData]
    would write on this frame. *)
Definition useFrame (audioMode : AudioMode) (dataArray : list Z)
    (st : State) : State :=
  if negb (listener st) then st
  else
    let d := audioDataRef st in
    if analyserRef st
       && match audioMode with MIC | THEREMIN => true | OFF => false end
       && dataArrayRef st
    then
      let avgBass := ndiv (ndiv (sumBins dataArray 0 4) (of_Z 4)) (of_Z 255) in
      let count := 80%Z in
      let avgHigh :=
        ndiv (ndiv (sumBins dataArray 20 100) (of_Z count)) (of_Z 255) in
      let avgVol :=
        ndiv (ndiv (sumBins dataArray 0 (length dataArray))
                   (of_Z (Z.of_nat (length dataArray)))) (of_Z 255) in
      let smooth := dec 3 10 in
      withData {| low := lerp (low d) avgBass smooth;
                  high := lerp (high d) avgHigh smooth;
                  vol := lerp (vol d) avgVol smooth |} st
    else
      withData {| low := lerp (low d) (of_Z 0) (dec 1 10);
                  high := lerp (high d) (of_Z 0) (dec 1 10);
                  vol := lerp (vol d) (of_Z 0) (dec 1 10) |} st.

(** [n] frames in a row in mode OFF. *)
Fixpoint framesOff (n : nat) (st : State) : State :=
  match n with
  | O => st
  | S n' => framesOff n' (useFrame OFF [] st)
  end.
End WithNumber.
Arguments AudioData A : clear implicits.
Arguments State A : clear implicits.
End AudioManager.
Export AudioManager.

(** ** ColorSlices.tsx: the animation loop *)

Module ColorSlices.
Section WithNumber.
Context {A : Type} `{Number A}.
(** [new THREE.Color(hex)]: the parsed colour of a hex string. *)
Variable parseColor : string -> Color A.

Record Springs := mkSprings {
  stackHeight : SpringValue A;
  twist : SpringValue A;
  radiusScale : SpringValue A;
  chaos : SpringValue A }.

Definition initialSprings : Springs :=
  {| stackHeight := new_SpringValue CONFIG_stackHeight (dec 5 100) (dec 85 100);
     twist := new_SpringValue (of_Z 0) (dec 3 100) (dec 90 100);
     radiusScale := new_SpringValue (of_Z 1) (dec 1 10) (dec 8 10);
     chaos := new_SpringValue (of_Z 0) (dec 5 100) (dec 9 10) |}.

Record State := mkState {
  springs : Springs;
  currentPaletteRef : list (Color A);
  targetPaletteRef : list string;
  meshRef : bool }.

Definition initialState (mounted : bool) : State :=
  {| springs := initialSprings;
     currentPaletteRef := map parseColor (PALETTES DEFAULT);
     targetPaletteRef := PALETTES DEFAULT;
     meshRef := mounted |}.

(** Step 1: which key of [PALETTES] becomes [nextPalette], and
    [emotionIntensity]. *)
Definition determineTargetPalette (face : FaceData A) : Mood * A :=
  if face_present face then
    if ngtb (smile face) (dec 4 10) then (JOY, smile face)
    else if ngtb (mouthOpen face) (dec 2 10) then (SURPRISE, mouthOpen face)
    else if ngtb (browDown face) (dec 3 10) then (MOODY, browDown face)
    else (DEFAULT, of_Z 0)
  else (DEFAULT, of_Z 0).

Definition nextPalette (face : FaceData A) : list string :=
  PALETTES (fst (determineTargetPalette face)).

(** Step 2, "Calculate Targets". *)
Record Targets := mkTargets {
  targetHeight : A; targetTwist : A; targetRadius : A; targetChaos : A }.

Definition calculateTargets (left right : HandData A) : Targets :=
  {| targetHeight :=
       if present left
       then nmul CONFIG_stackHeight (nmax (dec 5 10) (nadd (dec 15 10) (y left)))
       else CONFIG_stackHeight;
     targetTwist :=
       if present left then nmul (nmul (x left) npi) (of_Z 4) else of_Z 0;
     targetRadius :=
       if present right then nadd (of_Z 1) (nmul (y right) (dec 8 10))
       else of_Z 1;
     targetChaos :=
       if present right then nmul (nadd (x right) (of_Z 1)) (dec 5 10)
       else of_Z 0 |}.

(** Step 2, "Audio Input": the kick. *)
Definition audioKick (audioMode : AudioMode) (audio : AudioData A)
    (s : Springs) : Springs :=
  match audioMode with
  | OFF => s
  | _ =>
      if ngtb (low audio) (dec 4 10) then
        {| stackHeight :=
             add_velocity (nmul (low audio) (dec 1 10)) (stackHeight s);
           twist := twist s;
           radiusScale :=
             add_velocity (nmul (low audio) (dec 5 100)) (radiusScale s);
           chaos := chaos s |}
      else s
  end.

(** Step 2, "Update Springs": the four targets are stored, then every
    spring is updated once. *)
Definition updateSprings (t : Targets) (s : Springs) : Springs :=
  {| stackHeight := update (set_target (targetHeight t) (stackHeight s));
     twist := update (set_target (targetTwist t) (twist s));
     radiusScale := update (set_target (targetRadius t) (radiusScale s));
     chaos := update (set_target (targetChaos t) (chaos s)) |}.

Definition lerpSpeed : A := dec 15 100.

(** Step 3, "Color Blending", for instance [i]: the colour object in slot
    [i % 5] of the current palette is lerped in place.  Slots [0..4]
    exist in both palettes; outside them the statement would throw and
    the model leaves the palette as it is. *)
Definition blendInstance (target : list string) (i : nat)
    (current : list (Color A)) : list (Color A) :=
  match current !! (i mod 5)%nat, target !! (i mod 5)%nat with
  | Some c, Some targetHex =>
      <[(i mod 5)%nat := Color_lerp c (parseColor targetHex) lerpSpeed]> current
  | _, _ => current
  end.

(** The colour part of the loop over [count] instances. *)
Definition blendLoop (count : nat) (target : list string)
    (current : list (Color A)) : list (Color A) :=
  for_loop count (blendInstance target) current.

(** The callback, without the instance matrices and the material (which
    read the springs but do not write them or the palettes). *)
Definition useFrame (input : InputData A) (audio : AudioData A)
    (audioMode : AudioMode) (st : State) : State :=
  let target := nextPalette (face input) in
  let t := calculateTargets (left (hands input)) (right (hands input)) in
  let s := updateSprings t (audioKick audioMode audio (springs st)) in
  {| springs := s;
     currentPaletteRef :=
       if meshRef st
       then blendLoop CONFIG_sliceCount target (currentPaletteRef st)
       else currentPaletteRef st;
     targetPaletteRef := target;
     meshRef := meshRef st |}.
End WithNumber.
Arguments Springs A : clear implicits.
Arguments State A : clear implicits.
Arguments Targets A : clear implicits.
End ColorSlices.

(** ** Experience.tsx: the reactive lighting *)

Module Experience.
Section WithNumber.
Context {A : Type} `{Number A}.
Variable parseColor : string -> Color A.

(** The four values a branch of the lighting logic stores. *)
Record LightingTargets := mkLighting {
  color1 : string; color2 : string;
  targetIntensity : A; targetAmbient : A }.

Definition determineLighting (face : FaceData A) : LightingTargets :=
  if face_present face then
    if ngtb (smile face) (dec 4 10) then
      {| color1 := "#FF9AA2"; color2 := "#FFDAC1";
         targetIntensity := of_Z 150; targetAmbient := dec 12 10 |}
    else if ngtb (mouthOpen face) (dec 2 10) then
      {| color1 := "#39FF14"; color2 := "#00FF41";
         targetIntensity := of_Z 300; targetAmbient := dec 1 10 |}
    else if ngtb (browDown face) (dec 3 10) then
      {| color1 := "#001219"; color2 := "#0a9396";
         targetIntensity := of_Z 200; targetAmbient := dec 5 100 |}
    else
      {| color1 := "#00ffff"; color2 := "#ffaa00";
         targetIntensity := of_Z 80; targetAmbient := dec 5 10 |}
  else
    {| color1 := "#00ffff"; color2 := "#ffaa00";
       targetIntensity := of_Z 80; targetAmbient := dec 5 10 |}.

(** A spot light's colour and intensity; a light's ref is [None] until the
    light is mounted. *)
Record SpotLight := mkSpot { color : Color A; intensity : A }.
Record Lights := mkLights {
  spot1Ref : option SpotLight;
  spot2Ref : option SpotLight;
  ambientRef : option A }.

Definition lerpSpeed : A := dec 5 100.

Definition lerpSpot (hex : string) (t : LightingTargets) (l : SpotLight)
    : SpotLight :=
  {| color := Color_lerp (color l) (parseColor hex) lerpSpeed;
     intensity := MathUtils_lerp (intensity l) (targetIntensity t) lerpSpeed |}.

(** The callback, without the positions of the two spot lights. *)
Definition useFrame (face : FaceData A) (ls : Lights) : Lights :=
  let t := determineLighting face in
  {| spot1Ref := lerpSpot (color1 t) t <$> spot1Ref ls;
     spot2Ref := lerpSpot (color2 t) t <$> spot2Ref ls;
     ambientRef :=
       (fun a => MathUtils_lerp a (targetAmbient t) lerpSpeed) <$> ambientRef ls |}.
End WithNumber.
Arguments LightingTargets A : clear implicits.
Arguments SpotLight A : clear implicits.
Arguments Lights A : clear implicits.
End Experience.

(** ** Tests on JavaScript numbers *)

Module NumTests.

Class NumberTests (A : Type) := {
  nfalsy : A -> bool;            (* !a : a is 0, -0 or NaN *)
  nstrict_neq : A -> A -> bool   (* a !== b *)
}.

Definition Rfalsy (a : R) : bool := if Req_dec_T a 0 then true else false.
Definition Rneqb (a b : R) : bool := if Req_dec_T a b then false else true.

#[global] Instance RTests : NumberTests R := {|
  nfalsy := Rfalsy; nstrict_neq := Rneqb |}.

#[global] Instance FloatTests : NumberTests float := {|
  nfalsy := fun a => PrimFloat.is_zero a || PrimFloat.is_nan a;
  nstrict_neq := fun a b => negb (PrimFloat.eqb a b) |}.

End NumTests.
Export NumTests.

(** ** HandTracker.tsx: the face logic and the detection loop *)

Module Tracker.
Section WithNumber.
Context {A : Type} `{Number A} `{NumberTests A}.

(** What the face detector returns: per detected face a table of
    blendshape categories. *)
Record Classifications := mkClassifications { categories : list (Category A) }.
Record FaceLandmarkerResult := mkFaceResult {
  faceBlendshapes : option (list Classifications) }.

(** The [face] part of the fresh [newData]. *)
Definition newFace : FaceData A :=
  {| face_present := false; smile := of_Z 0; mouthOpen := of_Z 0;
     browDown := of_Z 0 |}.

(** [shapes.find(s => s.categoryName === name)?.score || 0]. *)
Definition getScore (shapes : list (Category A)) (name : string) : A :=
  match List.find (fun s => String.eqb (categoryName s) name) shapes with
  | Some s => if nfalsy (score s) then of_Z 0 else score s
  | None => of_Z 0
  end.

Definition faceLogic (res : FaceLandmarkerResult) : FaceData A :=
  match faceBlendshapes res with
  | Some (first :: _) =>
      let shapes := categories first in
      {| face_present := true;
         smile := ndiv (nadd (getScore shapes "mouthSmileLeft")
                             (getScore shapes "mouthSmileRight")) (of_Z 2);
         mouthOpen := getScore shapes "jawOpen";
         browDown := ndiv (nadd (getScore shapes "browDownLeft")
                                (getScore shapes "browDownRight")) (of_Z 2) |}
  | _ => newFace
  end.

(** The video element, as far as the loop reads it. *)
Record Video := mkVideo { videoWidth : A; videoHeight : A; currentTime : A }.

(** What one call of [predictWebcam] leaves behind: the value of
    [lastVideoTimeRef], the argument of [onUpdate] if it was called, and
    whether the next animation frame was requested. *)
Record Tick := mkTick {
  lastVideoTime : A;
  published : option (InputData A);
  rescheduled : bool }.

(** One call of [predictWebcam].  [landmarkers] says that both models are
    loaded, [video] is [videoRef.current], and [detection] is what the two
    [detectForVideo] calls return on this frame, [None] when one of them
    throws. *)
Definition predictWebcam (landmarkers : bool) (video : option Video)
    (detection : option (HandLandmarkerResult A * FaceLandmarkerResult))
    (lastVideoTimeRef : A) : Tick :=
  match landmarkers, video with
  | true, Some v =>
      if ngtb (videoWidth v) (of_Z 0) && ngtb (videoHeight v) (of_Z 0) then
        if nstrict_neq (currentTime v) lastVideoTimeRef then
          match detection with
          | Some (handResults, faceResults) =>
              match handLogic handResults with
              | Some newHands =>
                  {| lastVideoTime := currentTime v;
                     published := Some {| hands := newHands;
                                          face := faceLogic faceResults |};
                     rescheduled := true |}
              | None =>
                  {| lastVideoTime := currentTime v; published := None;
                     rescheduled := true |}
              end
          | None =>
              {| lastVideoTime := currentTime v; published := None;
                 rescheduled := true |}
          end
        else
          {| lastVideoTime := lastVideoTimeRef; published := None;
             rescheduled := true |}
      else
        {| lastVideoTime := lastVideoTimeRef; published := None;
           rescheduled := true |}
  | _, _ =>
      {| lastVideoTime := lastVideoTimeRef; published := None;
         rescheduled := false |}
  end.

(** App.tsx: the initial value of [inputDataRef], and the [onUpdate]
    callback storing what the tracker publishes. *)
Definition initialInputData : InputData A :=
  {| hands := newHands; face := newFace |}.

Definition onUpdate (t : Tick) (inputDataRef : InputData A) : InputData A :=
  match published t with
  | Some data => data
  | None => inputDataRef
  end.
End WithNumber.
Arguments Classifications A : clear implicits.
Arguments FaceLandmarkerResult A : clear implicits.
Arguments Video A : clear implicits.
Arguments Tick A : clear implicits.
End Tracker.
Export Tracker.

(** ** Cursor.tsx: the hand cursors *)

Module Cursor.
Section WithNumber.
Context {A : Type} `{Number A}.
Variable parseColor : string -> Color A.

(** [THREE.Vector3] and its [lerp(v, alpha)]: each coordinate does
    [this.c += (v.c - this.c) * alpha]. *)
Record Vector3 := mkVector3 { vx : A; vy : A; vz : A }.

Definition Vector3_lerp (this v : Vector3) (alpha : A) : Vector3 :=
  {| vx := nadd (vx this) (nmul (nsub (vx v) (vx this)) alpha);
     vy := nadd (vy this) (nmul (nsub (vy v) (vy this)) alpha);
     vz := nadd (vz this) (nmul (nsub (vz v) (vz this)) alpha) |}.

Record Viewport := mkViewport { width : A; height : A }.

(** The sphere and its point light, as far as the callback writes them;
    [scale] is the common value of the three scale components. *)
Record CursorState := mkCursor {
  position : Vector3;
  scale : A;
  meshColor : Color A;
  lightColor : Color A;
  visible : bool;
  intensity : A }.

Inductive HandKey : Type := KeyLeft | KeyRight.

Definition handOf (handKey : HandKey) (hands : TwoHandsData A) : HandData A :=
  match handKey with
  | KeyLeft => left hands
  | KeyRight => right hands
  end.

(** The position the cursor moves towards. *)
Definition cursorTarget (viewport : Viewport) (hand : HandData A) : Vector3 :=
  {| vx := ndiv (nmul (x hand) (width viewport)) (of_Z 3);
     vy := ndiv (nmul (y hand) (height viewport)) (of_Z 3);
     vz := of_Z 6 |}.

(** The callback of [BoundCursor]; [mounted] says that the mesh and the
    light both exist. *)
Definition BoundCursor_useFrame (mounted : bool) (handKey : HandKey)
    (color : string) (viewport : Viewport) (hands : TwoHandsData A)
    (st : CursorState) : CursorState :=
  if negb mounted then st
  else
    let hand := handOf handKey hands in
    if present hand then
      let finalColor :=
        Color_lerp (parseColor color) (parseColor "#ffffff")
                   (nsub (of_Z 1) (pinch hand)) in
      {| position := Vector3_lerp (position st) (cursorTarget viewport hand)
                                  (dec 2 10);
         scale := nadd (dec 2 10) (nmul (pinch hand) (dec 1 10));
         meshColor := finalColor;
         lightColor := finalColor;
         visible := true;
         intensity := nadd (of_Z 1) (nsub (of_Z 1) (pinch hand)) |}
    else
      {| position := position st; scale := scale st;
         meshColor := meshColor st; lightColor := lightColor st;
         visible := false; intensity := of_Z 0 |}.

(** The callback of [SingleCursor], which reads the hand it was given. *)
Definition SingleCursor_useFrame (mounted : bool) (hand : HandData A)
    (colorHex : string) (viewport : Viewport) (st : CursorState)
    : CursorState :=
  if negb mounted then st
  else if present hand then
    let color :=
      Color_lerp (parseColor colorHex) (parseColor "#ffffff")
                 (nsub (of_Z 1) (pinch hand)) in
    {| position := Vector3_lerp (position st) (cursorTarget viewport hand)
                                (dec 2 10);
       scale := nadd (dec 2 10) (nmul (pinch hand) (dec 1 10));
       meshColor := color;
       lightColor := color;
       visible := true;
       intensity := nadd (of_Z 1) (pinch hand) |}
  else
    {| position := position st; scale := scale st;
       meshColor := meshColor st; lightColor := lightColor st;
       visible := false; intensity := of_Z 0 |}.
End WithNumber.
Arguments Vector3 A : clear implicits.
Arguments Viewport A : clear implicits.
Arguments CursorState A : clear implicits.
End Cursor.

(** ** AudioManager.tsx: the theremin control *)

Module Theremin.
Section WithNumber.
Context {A : Type} `{Number A}.

(** One [param.setTargetAtTime(target, ctx.currentTime, timeConstant)]. *)
Record Ramp := mkRamp { rampTarget : A; timeConstant : A }.

(** The ramps one frame starts, per audio parameter. *)
Record Commands := mkCommands {
  bassFrequency : option Ramp;
  bassGain : option Ramp;
  leadFrequency : option Ramp;
  leadGain : option Ramp;
  vibratoGain : option Ramp }.

Definition noCommands : Commands :=
  {| bassFrequency := None; bassGain := None; leadFrequency := None;
     leadGain := None; vibratoGain := None |}.

(** Part 1 of the per-frame callback.  [bassNodes] says that the bass
    oscillator and its gain exist, [leadNodes] that the lead oscillator, its
    gain and the vibrato gain exist. *)
Definition thereminControl (listener : bool) (audioMode : AudioMode)
    (bassNodes leadNodes : bool) (hands : TwoHandsData A) : Commands :=
  if negb listener then noCommands
  else
    match audioMode with
    | THEREMIN =>
        let l := left hands in
        let r := right hands in
        {| bassFrequency :=
             if bassNodes && present l
             then Some {| rampTarget :=
                            nadd (of_Z 50)
                                 (nmul (ndiv (nadd (y l) (of_Z 1)) (of_Z 2))
                                       (of_Z 100));
                          timeConstant := dec 5 100 |}
             else None;
           bassGain :=
             if bassNodes then
               if present l
               then Some {| rampTarget := nmul (nmax (of_Z 0) (pinch l)) (dec 5 10);
                            timeConstant := dec 5 100 |}
               else Some {| rampTarget := of_Z 0; timeConstant := dec 1 10 |}
             else None;
           leadFrequency :=
             if leadNodes && present r
             then Some {| rampTarget := nadd (of_Z 440) (nmul (x r) (of_Z 300));
                          timeConstant := dec 5 100 |}
             else None;
           leadGain :=
             if leadNodes then
               if present r
               then Some {| rampTarget := dec 3 10; timeConstant := dec 5 100 |}
               else Some {| rampTarget := of_Z 0; timeConstant := dec 1 10 |}
             else None;
           vibratoGain :=
             if leadNodes && present r
             then Some {| rampTarget := nmul (nsub (of_Z 1) (pinch r)) (of_Z 20);
                          timeConstant := dec 5 100 |}
             else None |}
    | _ => noCommands
    end.
End WithNumber.
Arguments Ramp A : clear implicits.
Arguments Commands A : clear implicits.
End Theremin.

(** ** ColorSlices.tsx: instance transforms and the material *)

Module Slices.
Section WithNumber.
Context {A : Type} `{Number A}.
Variable parseColor : string -> Color A.
(** [Math.sin], and the successive results of [Math.random()]. *)
Variable sin_ : A -> A.
Variable random : nat -> A.

(** What is written to [tempObject] for one instance. *)
Record Transform := mkTransform {
  posX : A; posY : A; posZ : A;
  rotX : A; rotY : A; rotZ : A;
  scaleX : A; scaleY : A; scaleZ : A }.

(** [CONFIG.animationSpeed]. *)
Definition CONFIG_animationSpeed : A := dec 4 10.

(** The geometry part of the loop body for instance [i]; [drawn] counts the
    calls of [Math.random()] made so far, and the new count is returned. *)
Definition instanceTransform (time height twist radiusScale chaos : A)
    (i : nat) (drawn : nat) : Transform * nat :=
  let t := ndiv (of_Z (Z.of_nat i)) (of_Z (Z.of_nat CONFIG_sliceCount)) in
  let centeredT := nsub t (dec 5 10) in
  let posY := nmul centeredT height in
  let organicWave :=
    nmul (sin_ (nsub (nmul (nmul t npi) (of_Z 6)) (nmul time (of_Z 2))))
         (dec 2 10) in
  let radius := nmax (dec 1 10) (nadd radiusScale organicWave) in
  let jitter := ngtb chaos (dec 1 100) in
  let posX1 :=
    if jitter
    then nadd (of_Z 0) (nmul (nsub (random drawn) (dec 5 10)) chaos)
    else of_Z 0 in
  let posZ :=
    if jitter
    then nadd (of_Z 0) (nmul (nsub (random (S drawn)) (dec 5 10)) chaos)
    else of_Z 0 in
  let rotX := ndiv npi (of_Z 2) in
  let rotY := nadd (nmul t twist) (nmul time (dec 2 10)) in
  let posX :=
    nadd posX1 (nmul (sin_ (nadd time (nmul t (of_Z 4)))) (nmul chaos (of_Z 2))) in
  ({| posX := posX; posY := posY; posZ := posZ;
      rotX := rotX; rotY := rotY; rotZ := of_Z 0;
      scaleX := radius; scaleY := radius; scaleZ := of_Z 1 |},
   if jitter then S (S drawn) else drawn).

(** The transforms of all instances of one frame, in instance order. *)
Fixpoint transformsFrom (time height twist radiusScale chaos : A)
    (i count : nat) (drawn : nat) : list Transform * nat :=
  match count with
  | O => ([], drawn)
  | S count' =>
      let '(tr, drawn') :=
        instanceTransform time height twist radiusScale chaos i drawn in
      let '(rest, drawn'') :=
        transformsFrom time height twist radiusScale chaos (S i) count' drawn' in
      (tr :: rest, drawn'')
  end.

(** Step 3 runs only when the mesh is mounted. *)
Definition frameTransforms (meshRef : bool) (elapsedTime : A)
    (s : ColorSlices.Springs A) (drawn : nat) : list Transform * nat :=
  if meshRef then
    transformsFrom (nmul elapsedTime CONFIG_animationSpeed)
                   (value (ColorSlices.stackHeight s))
                   (value (ColorSlices.twist s))
                   (value (ColorSlices.radiusScale s))
                   (value (ColorSlices.chaos s))
                   0 CONFIG_sliceCount drawn
  else ([], drawn).

(** The physical material, as far as step 4 writes it. *)
Record Material := mkMaterial {
  ior : A; chromaticAberration : A; emissive : Color A }.

(** [Color.multiplyScalar(s)]. *)
Definition Color_multiplyScalar (c : Color A) (s : A) : Color A :=
  {| r := nmul (r c) s; g := nmul (g c) s; b := nmul (b c) s |}.

(** [new THREE.Color(targetPaletteRef.current[0])]; a colour built from
    [undefined] is white. *)
Definition firstColor (targetPalette : list string) : Color A :=
  match targetPalette !! 0%nat with
  | Some hex => parseColor hex
  | None => {| r := of_Z 1; g := of_Z 1; b := of_Z 1 |}
  end.

(** Step 4, on the springs as step 2 left them. *)
Definition materialUpdate (right : HandData A) (s : ColorSlices.Springs A)
    (targetPalette : list string) (emotionIntensity : A)
    (materialRef : option Material) : option Material :=
  let springEnergy :=
    nmul (nabs (velocity (ColorSlices.radiusScale s))) (of_Z 10) in
  match materialRef with
  | Some m =>
      let targetIor :=
        nadd (nadd (dec 15 10) (if present right then pinch right else of_Z 0))
             springEnergy in
      let targetAberration := nadd (dec 5 100) (nmul springEnergy (dec 5 10)) in
      let targetEmissive :=
        Color_multiplyScalar (firstColor targetPalette)
                             (nmul emotionIntensity (dec 5 10)) in
      Some {| ior := MathUtils_lerp (ior m) targetIor (dec 1 10);
              chromaticAberration :=
                MathUtils_lerp (chromaticAberration m) targetAberration (dec 1 10);
              emissive := Color_lerp (emissive m) targetEmissive (dec 1 10) |}
  | None => None
  end.
End WithNumber.
Arguments Transform A : clear implicits.
Arguments Material A : clear implicits.
End Slices.

(** * Vocabulary of the statements

    Everything from here on reads the definitions above at the real
    numbers, except where a statement says otherwise. *)

Open Scope R_scope.

(** The sequence [f] tends to [T]: for every tolerance there is an iteration
    count from which on [f] stays within it. *)
Definition converges_to (f : nat -> R) (T : R) : Prop :=
  forall eps : R, 0 < eps ->
    exists N : nat, forall n : nat, (N <= n)%nat -> Rabs (f n - T) < eps.

(** The stiffness and damping range in which the integrator is a
    contraction. *)
Definition stable (s : SpringValue R) : Prop :=
  0 < damping s < 1 /\ 0 < stiffness s < 2 * (1 + damping s).

(** An energy of the spring: a quadratic form in the previous error
    [a = value - target - velocity] and the current error
    [b = value - target], chosen so that one [update] lowers it by
    [dissipation] times [a * a + b * b]. *)
Definition weight (s : SpringValue R) : R :=
  let d := damping s in
  let tau := 1 + d - stiffness s in
  (1 + d) * (1 + d * d) - tau * tau * (1 - d).

Definition lyapunov (s : SpringValue R) : R :=
  let d := damping s in
  let tau := 1 + d - stiffness s in
  let b := value s - target s in
  let a := b - velocity s in
  weight s * (a * a) + 2 * (- (2 * d * tau)) * (a * b) + 2 * (1 + d) * (b * b).

Definition dissipation (s : SpringValue R) : R :=
  let d := damping s in
  let k := stiffness s in
  (1 - d) * (k * (2 + 2 * d - k)).

Definition discriminant (s : SpringValue R) : R :=
  let d := damping s in
  let tau := 1 + d - stiffness s in
  weight s * (2 * (1 + d)) - (2 * d * tau) * (2 * d * tau).

Definition contraction (s : SpringValue R) : R := 1 - dissipation s / 8.

(** The lighting reactor's targets as a table with one row per mood, the
    neutral and the absent face sharing the DEFAULT row. *)
Definition lightingOfMood (m : Mood) : Experience.LightingTargets R :=
  match m with
  | JOY =>
      {| Experience.color1 := "#FF9AA2"; Experience.color2 := "#FFDAC1";
         Experience.targetIntensity := 150; Experience.targetAmbient := 12 / 10 |}
  | SURPRISE =>
      {| Experience.color1 := "#39FF14"; Experience.color2 := "#00FF41";
         Experience.targetIntensity := 300; Experience.targetAmbient := 1 / 10 |}
  | MOODY =>
      {| Experience.color1 := "#001219"; Experience.color2 := "#0a9396";
         Experience.targetIntensity := 200; Experience.targetAmbient := 5 / 100 |}
  | DEFAULT =>
      {| Experience.color1 := "#00ffff"; Experience.color2 := "#ffaa00";
         Experience.targetIntensity := 80; Experience.targetAmbient := 5 / 10 |}
  end.

(** The hands of one detector result, in detection order: each with its
    handedness label and the signal computed from its landmarks.  [None]
    when a label or a landmark that the loop reads is missing. *)
Section Detections.
Context {A : Type} `{Number A}.

Definition detection (res : HandLandmarkerResult A) (i : nat)
    (lms : list (NormalizedLandmark A)) : option (string * HandData A) :=
  cats ← handedness res !! i;
  c ← cats !! 0%nat;
  indexTip ← lms !! 8%nat;
  thumbTip ← lms !! 4%nat;
  Some (categoryName c, handSignal indexTip thumbTip).

Fixpoint detectionsFrom (res : HandLandmarkerResult A) (i : nat)
    (rest : list (list (NormalizedLandmark A)))
    : option (list (string * HandData A)) :=
  match rest with
  | [] => Some []
  | lms :: rest' =>
      d ← detection res i lms;
      ds ← detectionsFrom res (S i) rest';
      Some (d :: ds)
  end.

(** Storing one detection in its slot. *)
Definition assign (d : string * HandData A) (acc : TwoHandsData A)
    : TwoHandsData A :=
  if String.eqb (fst d) "Left"
  then {| left := snd d; right := right acc |}
  else {| left := left acc; right := snd d |}.

(** The signal of the last detection whose label satisfies [p], and the
    absent hand when there is none. *)
Definition lastHand (p : string -> bool) (dets : list (string * HandData A))
    : HandData A :=
  default absentHand (snd <$> last (List.filter (fun d => p (fst d)) dets)).

Definition isLeft (label : string) : bool := String.eqb label "Left".
Definition isNotLeft (label : string) : bool := negb (String.eqb label "Left").
End Detections.

(** One in-place lerp of a palette colour towards the parsed target, as
    the colour loop does it for one instance. *)
Definition lerpTowards {A : Type} `{Number A} (parseColor : string -> Color A)
    (hex : string) (c : Color A) : Color A :=
  Color_lerp c (parseColor hex) ColorSlices.lerpSpeed.

(** The condition under which the audio callback analyses the spectrum
    instead of decaying the features. *)
Definition sourceActive (audioMode : AudioMode) (st : AudioManager.State R)
    : bool :=
  analyserRef st
  && match audioMode with MIC | THEREMIN => true | OFF => false end
  && dataArrayRef st.

(** One frame of decay of a feature from [x] to [x']: a lerp towards 0 by
    0.1, which never grows the magnitude, keeps a non-negative feature
    non-negative and no larger, and never reaches 0 from a non-zero value. *)
Definition decays (x x' : R) : Prop :=
  x' = x + (0 - x) * (1 / 10)
  /\ Rabs x' <= Rabs x
  /\ (0 <= x -> 0 <= x' <= x)
  /\ (x <> 0 -> x' <> 0).

(** ** Vocabulary of the further properties *)

(** The frame is one the loop processes: models loaded, a video of
    positive dimensions, and a time other than the last processed one. *)
Definition freshFrame (landmarkers : bool) (video : option (Video R))
    (last : R) : Prop :=
  landmarkers = true
  /\ exists v : Video R,
       video = Some v /\ 0 < videoWidth v /\ 0 < videoHeight v
       /\ currentTime v <> last.

(** All three features in [0, 1]. *)
Definition inUnit (d : AudioData R) : Prop :=
  0 <= low d <= 1 /\ 0 <= high d <= 1 /\ 0 <= vol d <= 1.

(** The buffer holds bytes. *)
Definition bytes (dataArray : list Z) : Prop :=
  Forall (fun v => 0 <= v <= 255)%Z dataArray.


(** The three channels of a sequence of colours tend to those of [c]. *)
Definition colorConverges (f : nat -> Color R) (c : Color R) : Prop :=
  converges_to (fun n => r (f n)) (r c)
  /\ converges_to (fun n => g (f n)) (g c)
  /\ converges_to (fun n => b (f n)) (b c).

(** The loop cannot read hand [i]: its landmark array has no entry 8 (and
    then perhaps no entry 4), or its handedness entry is missing or empty. *)
Definition unreadable {A : Type} `{Number A} (res : HandLandmarkerResult A)
    (i : nat) (lms : list (NormalizedLandmark A)) : Prop :=
  (length lms <= 8)%nat
  \/ handedness res !! i = None \/ handedness res !! i = Some [].

(** * Properties *)

(** Reading the interface at the real numbers. *)
Ltac at_R :=
  unfold dec in *;
  cbn [nadd nsub nmul ndiv nopp ngtb nmax nmin nsqrt nabs npi of_Z RNumber] in *.

(** ** The spring integrator *)

Section SpringFrame.
Context {A : Type} `{Number A}.

Lemma update_n_succ (n : nat) (s : SpringValue A) :
  update_n (S n) s = update (update_n n s).
Proof.
  revert s. induction n as [|n IH]; intros s; [reflexivity|].
  change (update_n (S (S n)) s) with (update_n (S n) (update s)).
  now rewrite IH.
Qed.

Lemma update_n_params (n : nat) (s : SpringValue A) :
  target (update_n n s) = target s
  /\ stiffness (update_n n s) = stiffness s
  /\ damping (update_n n s) = damping s.
Proof.
  revert s. induction n as [|n IH]; intros s; [easy|].
  cbn [update_n]. destruct (IH (update s)) as (-> & -> & ->). easy.
Qed.
End SpringFrame.

(** C1. One call of [update] computes [force = (target - value) * stiffness],
    then [velocity = velocity * damping + force], then
    [value = value + velocity], and nothing else: the result is exactly the
    record below, in the arithmetic of any number type and so in real
    arithmetic.  No field is clamped: every pair of reals is the
    (value, velocity) of some updated spring. *)
Theorem update_exact :
  (forall (A : Type) (N : Number A) (s : SpringValue A),
     let force := nmul (nsub (target s) (value s)) (stiffness s) in
     let velocity' := nadd (nmul (velocity s) (damping s)) force in
     update s = {| value := nadd (value s) velocity'; target := target s;
                   velocity := velocity'; stiffness := stiffness s;
                   damping := damping s |})
  /\ (forall s : SpringValue R,
        let force := (target s - value s) * stiffness s in
        let velocity' := velocity s * damping s + force in
        update s = {| value := value s + velocity'; target := target s;
                      velocity := velocity'; stiffness := stiffness s;
                      damping := damping s |})
  /\ (forall v w : R, exists s : SpringValue R,
        value (update s) = v /\ velocity (update s) = w).
Proof.
  split; [|split].
  - intros A N s. reflexivity.
  - intros s. reflexivity.
  - intros v w.
    exists {| value := v - w; target := 0; velocity := w;
              stiffness := 0; damping := 1 |}.
    unfold update; at_R; cbn. split; ring.
Qed.

(** C9. [update] writes [value] and [velocity] only: [target], [stiffness]
    and [damping] are the same after the call as before it, whatever the
    number type and the starting state, and so they are after any number of
    calls. *)
Theorem update_frame :
  forall (A : Type) (N : Number A) (s : SpringValue A),
    (target (update s) = target s
     /\ stiffness (update s) = stiffness s
     /\ damping (update s) = damping s)
    /\ (forall n : nat,
          target (update_n n s) = target s
          /\ stiffness (update_n n s) = stiffness s
          /\ damping (update_n n s) = damping s).
Proof.
  intros A N s. split.
  - repeat split.
  - intros n. apply update_n_params.
Qed.

(** The same reading on doubles, evaluated: the stack-height spring of the
    component, retargeted from 12 to 30, after one call. *)
Example update_float :
  let s := set_target (of_Z 30) (new_SpringValue (of_Z 12) (dec 5 100) (dec 85 100))
  in (value (update s), velocity (update s), target (update s))
     = (0x1.9cccccccccccdp+3, 0x1.ccccccccccccdp-1, 30)%float.
Proof. vm_compute. reflexivity. Qed.

(** ** Convergence of the spring integrator *)

Lemma lyapunov_update (s : SpringValue R) :
  lyapunov (update s) =
  lyapunov s - dissipation s *
     ((value s - target s - velocity s) * (value s - target s - velocity s)
      + (value s - target s) * (value s - target s)).
Proof.
  unfold lyapunov, weight, dissipation, update. at_R. cbn. ring.
Qed.

Lemma cross_term_bound (a b : R) :
  - (a * a + b * b) <= 2 * (a * b) <= a * a + b * b.
Proof.
  pose proof (Rle_0_sqr (a + b)) as Hp. pose proof (Rle_0_sqr (a - b)) as Hm.
  unfold Rsqr in Hp, Hm. lra.
Qed.

Lemma lyapunov_upper (s : SpringValue R) :
  0 < damping s < 1 -> 0 < stiffness s < 2 * (1 + damping s) ->
  lyapunov s <= 8 * ((value s - target s - velocity s) * (value s - target s - velocity s)
      + (value s - target s) * (value s - target s)).
Proof.
  intros Hd Hk. unfold lyapunov, weight. cbv zeta.
  set (d := damping s) in *. set (k := stiffness s) in *.
  set (b := value s - target s). set (a := b - velocity s).
  set (tau := 1 + d - k).
  assert (Htau : tau * tau < (1 + d) * (1 + d)).
  { assert (0 < (1 + d - tau) * (1 + d + tau))
      by (apply Rmult_lt_0_compat; unfold tau; lra). lra. }
  assert (Hdd : 0 < d * d < 1) by nra.
  assert (Ht0 : 0 <= tau * tau) by nra.
  assert (Ht1 : 0 <= tau * tau * (1 - d)) by (apply Rmult_le_pos; lra).
  assert (Ht2 : tau * tau * (1 - d) <= (1 + d) * (1 + d) * (1 - d))
    by (apply Rmult_le_compat_r; lra).
  assert (Hdd1 : (1 + d) * (1 + d * d) <= 4) by nra.
  assert (Hp : (1 + d) * (1 + d * d) - tau * tau * (1 - d) <= 4) by lra.
  assert (Hp0 : 0 <= (1 + d) * (1 + d * d) - tau * tau * (1 - d)) by nra.
  assert (Hq : -2 <= d * tau <= 2) by (unfold tau; nra).
  pose proof (cross_term_bound a b) as Hab.
  assert (Haa : 0 <= a * a) by nra. assert (Hbb : 0 <= b * b) by nra.
  nra.
Qed.

Lemma stable_update (s : SpringValue R) : stable s -> stable (update s).
Proof. intros H. exact H. Qed.

Lemma tau_square (d k : R) :
  0 < d < 1 -> 0 < k < 2 * (1 + d) ->
  (1 + d - k) * (1 + d - k) < (1 + d) * (1 + d).
Proof.
  intros Hd Hk.
  assert (0 < k * (2 * (1 + d) - k)) by (apply Rmult_lt_0_compat; lra).
  lra.
Qed.

Lemma weight_pos (s : SpringValue R) :
  stable s -> 2 * (damping s * damping s) * (1 + damping s) < weight s.
Proof.
  intros [Hd Hk]. unfold weight. cbv zeta.
  pose proof (tau_square _ _ Hd Hk) as Ht.
  set (d := damping s) in *. set (tau := 1 + d - stiffness s) in *.
  assert (tau * tau * (1 - d) < (1 + d) * (1 + d) * (1 - d))
    by (apply Rmult_lt_compat_r; lra).
  lra.
Qed.

Lemma discriminant_pos (s : SpringValue R) : stable s -> 0 < discriminant s.
Proof.
  intros Hs. pose proof (weight_pos s Hs) as Hw. destruct Hs as [Hd Hk].
  pose proof (tau_square _ _ Hd Hk) as Ht.
  unfold discriminant. cbv zeta.
  set (d := damping s) in *. set (tau := 1 + d - stiffness s) in *.
  set (w := weight s) in *.
  assert (Hdd : 0 < d * d) by (apply Rmult_lt_0_compat; lra).
  assert (H1 : 2 * (d * d) * (1 + d) * (2 * (1 + d)) < w * (2 * (1 + d)))
    by (apply Rmult_lt_compat_r; lra).
  assert (H2 : d * d * (tau * tau) < d * d * ((1 + d) * (1 + d)))
    by (apply Rmult_lt_compat_l; lra).
  lra.
Qed.

Lemma lyapunov_lower (s : SpringValue R) :
  discriminant s * ((value s - target s) * (value s - target s))
  <= weight s * lyapunov s.
Proof.
  unfold discriminant, lyapunov, weight. cbv zeta.
  set (d := damping s). set (tau := 1 + d - stiffness s).
  set (b := value s - target s). set (a := b - velocity s).
  set (w := (1 + d) * (1 + d * d) - tau * tau * (1 - d)).
  pose proof (Rle_0_sqr (w * a - 2 * d * tau * b)) as Hsq. unfold Rsqr in Hsq.
  lra.
Qed.

Lemma dissipation_range (s : SpringValue R) :
  stable s -> 0 < dissipation s <= 4.
Proof.
  intros [Hd Hk]. unfold dissipation. cbv zeta.
  set (d := damping s) in *. set (k := stiffness s) in *.
  assert (H1 : 0 < k * (2 + 2 * d - k)) by (apply Rmult_lt_0_compat; lra).
  assert (H2 : k * (2 + 2 * d - k) <= (1 + d) * (1 + d)).
  { pose proof (Rle_0_sqr (1 + d - k)) as Hsq. unfold Rsqr in Hsq. lra. }
  assert (H3 : (1 + d) * (1 + d) <= 4) by nra.
  split.
  - apply Rmult_lt_0_compat; lra.
  - assert ((1 - d) * (k * (2 + 2 * d - k)) <= 1 * (k * (2 + 2 * d - k)))
      by (apply Rmult_le_compat_r; lra).
    lra.
Qed.

Lemma contraction_range (s : SpringValue R) :
  stable s -> 0 <= contraction s < 1.
Proof.
  intros Hs. pose proof (dissipation_range s Hs). unfold contraction. lra.
Qed.

Lemma lyapunov_nonneg (s : SpringValue R) : stable s -> 0 <= lyapunov s.
Proof.
  intros Hs. pose proof (lyapunov_lower s) as Hl.
  pose proof (discriminant_pos s Hs) as HD.
  pose proof (weight_pos s Hs) as Hw. destruct Hs as [Hd Hk].
  pose proof (Rle_0_sqr (value s - target s)) as Hsq. unfold Rsqr in Hsq.
  assert (Hdd : 0 < damping s * damping s) by (apply Rmult_lt_0_compat; lra).
  assert (Hw0 : 0 < weight s).
  { assert (0 < 2 * (damping s * damping s) * (1 + damping s))
      by (apply Rmult_lt_0_compat; lra). lra. }
  assert (Hm : 0 <= discriminant s * ((value s - target s) * (value s - target s)))
    by (apply Rmult_le_pos; lra).
  destruct (Rle_or_lt 0 (lyapunov s)) as [|Hneg]; [assumption|].
  assert (weight s * lyapunov s < weight s * 0)
    by (apply Rmult_lt_compat_l; lra).
  lra.
Qed.

Lemma lyapunov_decay (s : SpringValue R) :
  stable s -> lyapunov (update s) <= contraction s * lyapunov s.
Proof.
  intros Hs. rewrite lyapunov_update. unfold contraction.
  pose proof (dissipation_range s Hs) as HD.
  pose proof (lyapunov_upper s (proj1 Hs) (proj2 Hs)) as Hu.
  set (S := (value s - target s - velocity s) * (value s - target s - velocity s)
      + (value s - target s) * (value s - target s)) in *.
  set (V := lyapunov s) in *. set (D := dissipation s) in *.
  assert (D * V <= D * (8 * S)) by (apply Rmult_le_compat_l; lra).
  lra.
Qed.

Lemma lyapunov_n (n : nat) (s : SpringValue R) :
  stable s -> lyapunov (update_n n s) <= contraction s ^ n * lyapunov s.
Proof.
  revert s. induction n as [|n IH]; intros s Hs.
  - cbn [update_n pow]. lra.
  - cbn [update_n]. pose proof (IH (update s) (stable_update s Hs)) as Hn.
    change (contraction (update s)) with (contraction s) in Hn.
    pose proof (lyapunov_decay s Hs) as H1.
    pose proof (contraction_range s Hs) as Hr.
    assert (Hp : 0 <= contraction s ^ n) by (apply pow_le; lra).
    assert (contraction s ^ n * lyapunov (update s)
            <= contraction s ^ n * (contraction s * lyapunov s))
      by (apply Rmult_le_compat_l; lra).
    rewrite <- tech_pow_Rmult. lra.
Qed.

Lemma square_lt_abs (x eps : R) : 0 < eps -> x * x < eps * eps -> Rabs x < eps.
Proof.
  intros He Hx. apply Rabs_def1.
  - destruct (Rlt_or_le x eps) as [|Hge]; [assumption|].
    assert (eps * eps <= x * x) by (apply Rmult_le_compat; lra). lra.
  - destruct (Rlt_or_le (- eps) x) as [|Hle]; [assumption|].
    assert (eps * eps <= (- x) * (- x)) by (apply Rmult_le_compat; lra). lra.
Qed.

(** C5, as amended.  For every target, every damping [d] with [0 < d < 1]
    and every stiffness [k] with [0 < k < 2 * (1 + d)], and from every
    starting value and velocity, repeated [update] converges [value] to
    [target]: for every tolerance there is an iteration count from which on
    [|value - target|] stays below it. *)
Theorem spring_converges (s : SpringValue R) :
  0 < damping s < 1 ->
  0 < stiffness s < 2 * (1 + damping s) ->
  converges_to (fun n => value (update_n n s)) (target s).
Proof.
  intros Hd Hk eps Heps.
  assert (Hs : stable s) by (split; assumption).
  pose proof (contraction_range s Hs) as Hr.
  pose proof (discriminant_pos s Hs) as HD.
  pose proof (lyapunov_nonneg s Hs) as HV.
  assert (Hw : 0 < weight s).
  { pose proof (weight_pos s Hs) as Hw.
    assert (0 < damping s * damping s) by (apply Rmult_lt_0_compat; lra).
    assert (0 < 2 * (damping s * damping s) * (1 + damping s))
      by (apply Rmult_lt_0_compat; lra). lra. }
  set (y := eps * eps * discriminant s / (weight s * (lyapunov s + 1))).
  assert (Hy : 0 < y).
  { unfold y. apply Rdiv_lt_0_compat.
    - repeat apply Rmult_lt_0_compat; assumption.
    - apply Rmult_lt_0_compat; lra. }
  destruct (pow_lt_1_zero (contraction s) (Rabs_def1 _ _ (proj2 Hr) ltac:(lra)) y Hy)
    as [N HN].
  exists N. intros n Hn.
  apply square_lt_abs; [assumption|].
  specialize (HN n Hn). apply Rabs_def2 in HN. destruct HN as [HN _].
  pose proof (lyapunov_n n s Hs) as Hdec.
  pose proof (lyapunov_lower (update_n n s)) as Hlow.
  destruct (update_n_params n s) as (Et & Ek & Ed).
  change (discriminant (update_n n s)) with
    (let d := damping (update_n n s) in
     let tau := 1 + d - stiffness (update_n n s) in
     weight (update_n n s) * (2 * (1 + d)) - (2 * d * tau) * (2 * d * tau)) in Hlow.
  unfold weight in Hlow. cbv zeta in Hlow. rewrite Ek, Ed, Et in Hlow.
  fold (weight s) in Hlow.
  change (weight s * (2 * (1 + damping s))
          - 2 * damping s * (1 + damping s - stiffness s)
            * (2 * damping s * (1 + damping s - stiffness s)))
    with (discriminant s) in Hlow.
  set (e2 := (value (update_n n s) - target s) * (value (update_n n s) - target s)) in *.
  set (Vn := lyapunov (update_n n s)) in *.
  set (V := lyapunov s) in *. set (D := discriminant s) in *.
  set (w := weight s) in *. set (rn := contraction s ^ n) in *.
  (* D * e2 <= w * Vn <= w * rn * V < w * y * (V + 1) = eps^2 * D *)
  assert (H1 : w * Vn <= w * (rn * V)) by (apply Rmult_le_compat_l; lra).
  assert (H2 : rn * V <= y * V) by (apply Rmult_le_compat_r; lra).
  assert (H3 : y * V < y * (V + 1)) by (apply Rmult_lt_compat_l; lra).
  assert (H4 : w * (rn * V) < w * (y * (V + 1))) by (apply Rmult_lt_compat_l; lra).
  assert (H5 : w * (y * (V + 1)) = eps * eps * D).
  { unfold y. field. split; lra. }
  assert (H6 : D * e2 < D * (eps * eps)) by lra.
  apply Rmult_lt_reg_l in H6; assumption.
Qed.

(** The four springs of the component are in the stable range. *)
Lemma component_springs_stable :
  stable (ColorSlices.stackHeight (@ColorSlices.initialSprings R _))
  /\ stable (ColorSlices.twist (@ColorSlices.initialSprings R _))
  /\ stable (ColorSlices.radiusScale (@ColorSlices.initialSprings R _))
  /\ stable (ColorSlices.chaos (@ColorSlices.initialSprings R _)).
Proof. unfold stable. at_R. cbn. at_R. lra. Qed.

(** At the stack-height spring of the component, retargeted from 12 to 30. *)
Lemma spring_converges_witness :
  converges_to
    (fun n => value (update_n n (set_target 30 (new_SpringValue 12 (dec 5 100) (dec 85 100)))))
    30.
Proof.
  apply (spring_converges (set_target 30 (new_SpringValue 12 (dec 5 100) (dec 85 100))));
    at_R; cbn; lra.
Defined.

(** C5, as stated, fails outside the stable range.  With damping 0.5 and
    stiffness 3, target 0, value 1 and velocity 2, two calls of [update]
    give the starting state back, so the value alternates between 1 and -1
    and stays at distance 1 from the target. *)
Lemma spring_two_cycle :
  let s0 := {| value := 1; target := 0; velocity := 2;
               stiffness := 3; damping := 1 / 2 |} in
  0 < damping s0 < 1
  /\ update (update s0) = s0
  /\ (forall n : nat, Rabs (value (update_n n s0) - target s0) = 1)
  /\ ~ converges_to (fun n => value (update_n n s0)) (target s0).
Proof.
  cbv zeta.
  set (s0 := {| value := 1; target := 0; velocity := 2;
                stiffness := 3; damping := 1 / 2 |}).
  set (s1 := {| value := -1; target := 0; velocity := -2;
                stiffness := 3; damping := 1 / 2 |}).
  assert (H01 : update s0 = s1).
  { unfold update, s0, s1. at_R. cbn. f_equal; lra. }
  assert (H10 : update s1 = s0).
  { unfold update, s0, s1. at_R. cbn. f_equal; lra. }
  assert (Hcyc : forall n, update_n n s0 = s0 \/ update_n n s0 = s1).
  { induction n as [|n [IH|IH]].
    - now left.
    - right. now rewrite update_n_succ, IH.
    - left. now rewrite update_n_succ, IH. }
  assert (Hdist : forall n, Rabs (value (update_n n s0) - target s0) = 1).
  { intros n. destruct (Hcyc n) as [-> | ->]; cbn.
    - replace (1 - 0) with 1 by lra. apply Rabs_R1.
    - replace (-1 - 0) with (- (1)) by lra. rewrite Rabs_Ropp. apply Rabs_R1. }
  repeat split.
  - cbn. lra.
  - cbn. lra.
  - now rewrite H01.
  - exact Hdist.
  - intros Hconv. destruct (Hconv 1 Rlt_0_1) as [N HN].
    specialize (HN N (Nat.le_refl N)). rewrite Hdist in HN. lra.
Qed.

(** The same cycle on doubles: every number in it is exact. *)
Example spring_two_cycle_float :
  let s0 := {| value := 1; target := 0; velocity := 2;
               stiffness := 3; damping := 0.5 |}%float in
  update (update s0) = s0.
Proof. vm_compute. reflexivity. Qed.

(** ** Signal extraction: the pinch *)

Lemma Rgtb_true (a b : R) : Rgtb a b = true <-> b < a.
Proof. unfold Rgtb. destruct (Rlt_dec b a); split; intros; easy. Qed.

Lemma Rgtb_false (a b : R) : Rgtb a b = false <-> a <= b.
Proof.
  unfold Rgtb. destruct (Rlt_dec b a); split; intros; try easy; lra.
Qed.

Lemma pinchOf_unfold (d : R) :
  pinchOf d = Rmin (Rmax ((d - 2 / 100) / (15 / 100)) 0) 1.
Proof. reflexivity. Qed.

(** C6. The pinch is [clamp((distance - 0.02) / 0.15, 0, 1)] of the distance
    between the index tip and the thumb tip: 0 at distance 0.02, 1 at 0.17,
    one half at 0.095, exactly 1 above 0.17 and exactly 0 below 0.02. *)
Theorem pinch_clamp :
  (forall indexTip thumbTip : NormalizedLandmark R,
     pinch (handSignal indexTip thumbTip)
     = pinchOf (sqrt ((lm_x indexTip - lm_x thumbTip) * (lm_x indexTip - lm_x thumbTip)
                      + (lm_y indexTip - lm_y thumbTip) * (lm_y indexTip - lm_y thumbTip))))
  /\ (forall d : R, pinchOf d = Rmin (Rmax ((d - 2 / 100) / (15 / 100)) 0) 1)
  /\ pinchOf (2 / 100) = 0
  /\ pinchOf (17 / 100) = 1
  /\ pinchOf (95 / 1000) = 1 / 2
  /\ (forall d : R, 17 / 100 < d -> pinchOf d = 1)
  /\ (forall d : R, d < 2 / 100 -> pinchOf d = 0)
  /\ (forall d : R, 0 <= pinchOf d <= 1).
Proof.
  assert (Hq : forall d : R, (d - 2 / 100) / (15 / 100) = (100 * d - 2) / 15)
    by (intros d; field).
  repeat split; try reflexivity.
  - rewrite pinchOf_unfold, Hq. unfold Rmin, Rmax.
    repeat destruct (Rle_dec _ _); lra.
  - rewrite pinchOf_unfold, Hq. unfold Rmin, Rmax.
    repeat destruct (Rle_dec _ _); lra.
  - rewrite pinchOf_unfold, Hq. unfold Rmin, Rmax.
    repeat destruct (Rle_dec _ _); lra.
  - intros d Hd. rewrite pinchOf_unfold, Hq. unfold Rmin, Rmax.
    repeat destruct (Rle_dec _ _); lra.
  - intros d Hd. rewrite pinchOf_unfold, Hq. unfold Rmin, Rmax.
    repeat destruct (Rle_dec _ _); lra.
  - rewrite pinchOf_unfold. unfold Rmin, Rmax.
    repeat destruct (Rle_dec _ _); lra.
  - rewrite pinchOf_unfold. unfold Rmin, Rmax.
    repeat destruct (Rle_dec _ _); lra.
Qed.

(** The three sample distances on doubles: [(0.17 - 0.02) / 0.15] rounds
    just above 1 and the clamp returns exactly 1. *)
Example pinch_float :
  (pinchOf (dec 2 100), pinchOf (dec 17 100), pinchOf (dec 95 1000),
   pinchOf (of_Z 5), pinchOf (of_Z 0))
  = (0, 1, 0.5, 1, 0)%float.
Proof. vm_compute. reflexivity. Qed.

(** ** Mood selection *)

(** C2. The palette is selected by a priority cascade: with the face
    present, [smile > 0.4] gives JOY; otherwise [mouthOpen > 0.2] gives
    SURPRISE; otherwise [browDown > 0.3] gives MOODY; otherwise DEFAULT; an
    absent face gives DEFAULT.  Exactly one of the five cases applies to
    each face.  With smile, mouthOpen and browDown all 0.5 the result is
    JOY. *)
Theorem mood_cascade :
  (forall face : FaceData R,
     let mood := fst (ColorSlices.determineTargetPalette face) in
     (face_present face = false /\ mood = DEFAULT)
     \/ (face_present face = true /\ smile face > 4 / 10 /\ mood = JOY)
     \/ (face_present face = true /\ smile face <= 4 / 10
         /\ mouthOpen face > 2 / 10 /\ mood = SURPRISE)
     \/ (face_present face = true /\ smile face <= 4 / 10
         /\ mouthOpen face <= 2 / 10 /\ browDown face > 3 / 10 /\ mood = MOODY)
     \/ (face_present face = true /\ smile face <= 4 / 10
         /\ mouthOpen face <= 2 / 10 /\ browDown face <= 3 / 10
         /\ mood = DEFAULT))
  /\ ColorSlices.determineTargetPalette
       {| face_present := true; smile := 5 / 10; mouthOpen := 5 / 10;
          browDown := 5 / 10 |} = (JOY, 5 / 10)
  /\ ColorSlices.nextPalette
       {| face_present := true; smile := 5 / 10; mouthOpen := 5 / 10;
          browDown := 5 / 10 |} = PALETTES JOY.
Proof.
  assert (Hjoy : ColorSlices.determineTargetPalette
       {| face_present := true; smile := 5 / 10; mouthOpen := 5 / 10;
          browDown := 5 / 10 |} = (JOY, 5 / 10)).
  { unfold ColorSlices.determineTargetPalette. at_R. cbn.
    destruct (Rgtb (5 / 10) (4 / 10)) eqn:E; [reflexivity|].
    apply Rgtb_false in E. lra. }
  split; [|split; [exact Hjoy | unfold ColorSlices.nextPalette; now rewrite Hjoy]].
  intros [p sm mo br]. unfold ColorSlices.determineTargetPalette. at_R. cbn.
  destruct p; [|now left]. right.
  destruct (Rgtb sm (4 / 10)) eqn:Es.
  { apply Rgtb_true in Es. left. cbn. repeat split; lra. }
  apply Rgtb_false in Es. right.
  destruct (Rgtb mo (2 / 10)) eqn:Em.
  { apply Rgtb_true in Em. left. cbn. repeat split; lra. }
  apply Rgtb_false in Em. right.
  destruct (Rgtb br (3 / 10)) eqn:Eb.
  { apply Rgtb_true in Eb. left. cbn. repeat split; lra. }
  apply Rgtb_false in Eb. right. cbn. repeat split; lra.
Qed.

(** The same face on doubles. *)
Example mood_float :
  fst (ColorSlices.determineTargetPalette
         {| face_present := true; smile := 0.5; mouthOpen := 0.5;
            browDown := 0.5 |}%float) = JOY.
Proof. vm_compute. reflexivity. Qed.

(** ** Spring targets from the hands *)

(** C7. The targets computed from the hands are: with the left hand
    present, stack height [base * max(0.5, 1.5 + y)] and twist [x * 4 * PI],
    otherwise [base] and 0; with the right hand present, radius
    [1 + y * 0.8] and chaos [(x + 1) * 0.5], otherwise 1 and 0.  The frame
    callback stores them as the targets of the four springs.  A left hand at
    (0, 1) with the right hand absent gives [base * 2.5], 0 and 1. *)
Theorem spring_targets :
  (forall left right : HandData R,
     ColorSlices.calculateTargets left right =
     {| ColorSlices.targetHeight :=
          if present left
          then CONFIG_stackHeight * Rmax (5 / 10) (15 / 10 + y left)
          else CONFIG_stackHeight;
        ColorSlices.targetTwist := if present left then x left * (4 * PI) else 0;
        ColorSlices.targetRadius :=
          if present right then 1 + y right * (8 / 10) else 1;
        ColorSlices.targetChaos :=
          if present right then (x right + 1) * (5 / 10) else 0 |})
  /\ (forall (parseColor : string -> Color R) (input : InputData R)
        (audio : AudioData R) (audioMode : AudioMode) (st : ColorSlices.State R),
        let t := ColorSlices.calculateTargets
                   (left (hands input)) (right (hands input)) in
        let s' := ColorSlices.springs
                    (ColorSlices.useFrame parseColor input audio audioMode st) in
        target (ColorSlices.stackHeight s') = ColorSlices.targetHeight t
        /\ target (ColorSlices.twist s') = ColorSlices.targetTwist t
        /\ target (ColorSlices.radiusScale s') = ColorSlices.targetRadius t
        /\ target (ColorSlices.chaos s') = ColorSlices.targetChaos t)
  /\ ColorSlices.calculateTargets
       {| present := true; x := 0; y := 1; pinch := 0 |} absentHand
     = {| ColorSlices.targetHeight := CONFIG_stackHeight * (25 / 10);
          ColorSlices.targetTwist := 0;
          ColorSlices.targetRadius := 1;
          ColorSlices.targetChaos := 0 |}.
Proof.
  split; [|split].
  - intros l r. unfold ColorSlices.calculateTargets. at_R.
    f_equal. destruct (present l); [ring | reflexivity].
  - intros parseColor input audio audioMode st. cbv zeta.
    unfold ColorSlices.useFrame, ColorSlices.updateSprings. cbn. easy.
  - unfold ColorSlices.calculateTargets, absentHand. at_R. cbn.
    f_equal.
    + f_equal. unfold Rmax. destruct (Rle_dec _ _); lra.
    + ring.
Qed.

(** The scenario on doubles: [12 * max(0.5, 1.5 + 1)] is 30. *)
Example spring_targets_float :
  let t := ColorSlices.calculateTargets
             {| present := true; x := 0; y := 1; pinch := 0 |}%float absentHand in
  (ColorSlices.targetHeight t, ColorSlices.targetTwist t,
   ColorSlices.targetRadius t)
  = (30, 0, 1)%float.
Proof. vm_compute. reflexivity. Qed.

(** ** The lighting reactor *)

Lemma lighting_follows_mood (face : FaceData R) :
  Experience.determineLighting face
  = lightingOfMood (fst (ColorSlices.determineTargetPalette face)).
Proof.
  destruct face as [p sm mo br].
  unfold Experience.determineLighting, ColorSlices.determineTargetPalette.
  at_R. cbn.
  destruct p; [|reflexivity].
  destruct (Rgtb sm (4 / 10)); [reflexivity|].
  destruct (Rgtb mo (2 / 10)); [reflexivity|].
  destruct (Rgtb br (3 / 10)); reflexivity.
Qed.

Lemma lightingOfMood_inj (m m' : Mood) :
  lightingOfMood m = lightingOfMood m' -> m = m'.
Proof.
  intros E. apply (f_equal Experience.targetIntensity) in E.
  destruct m, m'; cbn in E; try reflexivity; lra.
Qed.

(** C8. On every face the lighting logic takes the branch of the palette
    logic: its four targets are the row of the palette's mood, and the rows
    are pairwise different.  A present face with smile 0.6 selects the JOY
    palette and the targets "#FF9AA2", 150 and 1.2.  One frame moves each
    mounted light towards its targets by the fixed factor 0.05: every colour
    channel [c] of a spot light becomes [c + (t - c) * 0.05] for the channel
    [t] of its parsed target colour, the intensities and the ambient value
    likewise, so each keeps 0.95 of its distance to the target; with smile
    0.6 the first spot light moves towards the colour of "#FF9AA2", 150 and
    the ambient light towards 1.2. *)
Theorem lighting_mirrors_palette :
  (forall (face : FaceData R) (m : Mood),
     Experience.determineLighting face = lightingOfMood m
     <-> fst (ColorSlices.determineTargetPalette face) = m)
  /\ (forall mo br : R,
        let face := {| face_present := true; smile := 6 / 10;
                       mouthOpen := mo; browDown := br |} in
        ColorSlices.nextPalette face = PALETTES JOY
        /\ Experience.color1 (Experience.determineLighting face) = "#FF9AA2"%string
        /\ Experience.targetIntensity (Experience.determineLighting face) = 150
        /\ Experience.targetAmbient (Experience.determineLighting face) = 12 / 10)
  /\ (forall (parseColor : string -> Color R) (face : FaceData R)
        (s1 s2 : Experience.SpotLight R) (a : R),
        let t := Experience.determineLighting face in
        let c1 := Experience.color s1 in
        let c2 := Experience.color s2 in
        let t1 := parseColor (Experience.color1 t) in
        let t2 := parseColor (Experience.color2 t) in
        Experience.useFrame parseColor face
          {| Experience.spot1Ref := Some s1; Experience.spot2Ref := Some s2;
             Experience.ambientRef := Some a |}
        = {| Experience.spot1Ref :=
               Some {| Experience.color :=
                         {| r := r c1 + (r t1 - r c1) * (5 / 100);
                            g := g c1 + (g t1 - g c1) * (5 / 100);
                            b := b c1 + (b t1 - b c1) * (5 / 100) |};
                       Experience.intensity :=
                         (1 - 5 / 100) * Experience.intensity s1
                         + 5 / 100 * Experience.targetIntensity t |};
             Experience.spot2Ref :=
               Some {| Experience.color :=
                         {| r := r c2 + (r t2 - r c2) * (5 / 100);
                            g := g c2 + (g t2 - g c2) * (5 / 100);
                            b := b c2 + (b t2 - b c2) * (5 / 100) |};
                       Experience.intensity :=
                         (1 - 5 / 100) * Experience.intensity s2
                         + 5 / 100 * Experience.targetIntensity t |};
             Experience.ambientRef :=
               Some ((1 - 5 / 100) * a + 5 / 100 * Experience.targetAmbient t) |})
  /\ (forall (parseColor : string -> Color R) (mo br : R)
        (s1 s2 : Experience.SpotLight R) (a : R),
        let face := {| face_present := true; smile := 6 / 10;
                       mouthOpen := mo; browDown := br |} in
        let ls := Experience.useFrame parseColor face
                    {| Experience.spot1Ref := Some s1;
                       Experience.spot2Ref := Some s2;
                       Experience.ambientRef := Some a |} in
        let c := Experience.color s1 in
        let pink := parseColor "#FF9AA2"%string in
        exists (s1' : Experience.SpotLight R) (a' : R),
          Experience.spot1Ref ls = Some s1'
          /\ Experience.ambientRef ls = Some a'
          /\ r (Experience.color s1') - r pink = 95 / 100 * (r c - r pink)
          /\ g (Experience.color s1') - g pink = 95 / 100 * (g c - g pink)
          /\ b (Experience.color s1') - b pink = 95 / 100 * (b c - b pink)
          /\ Experience.intensity s1' - 150
             = 95 / 100 * (Experience.intensity s1 - 150)
          /\ a' - 12 / 10 = 95 / 100 * (a - 12 / 10)).
Proof.
  assert (Hjoy : forall mo br : R,
            ColorSlices.determineTargetPalette
              {| face_present := true; smile := 6 / 10;
                 mouthOpen := mo; browDown := br |} = (JOY, 6 / 10)).
  { intros mo br. unfold ColorSlices.determineTargetPalette. at_R. cbn.
    destruct (Rgtb (6 / 10) (4 / 10)) eqn:E; [reflexivity|].
    apply Rgtb_false in E. lra. }
  split; [|split; [|split]].
  - intros face m. rewrite lighting_follows_mood. split.
    + apply lightingOfMood_inj.
    + now intros ->.
  - intros mo br. cbv zeta.
    rewrite lighting_follows_mood. unfold ColorSlices.nextPalette.
    rewrite Hjoy. cbn. easy.
  - intros parseColor face s1 s2 a. reflexivity.
  - intros parseColor mo br s1 s2 a. cbv zeta.
    unfold Experience.useFrame. rewrite lighting_follows_mood, Hjoy.
    cbn [fst lightingOfMood Experience.color1 Experience.color2
         Experience.targetIntensity Experience.targetAmbient
         Experience.spot1Ref Experience.ambientRef fmap option_fmap option_map].
    eexists _, _. split; [reflexivity|]. split; [reflexivity|].
    unfold Experience.lerpSpot, Color_lerp, MathUtils_lerp, Experience.lerpSpeed.
    at_R.
    cbn [Experience.color Experience.intensity Experience.targetIntensity r g b].
    repeat split; lra.
Qed.

(** The JOY scenario on doubles: the targets, and a spot light of intensity
    80 after one frame. *)
Example lighting_float :
  let face := {| face_present := true; smile := dec 6 10;
                 mouthOpen := of_Z 0; browDown := of_Z 0 |} in
  let t := Experience.determineLighting face in
  (Experience.color1 t, Experience.targetIntensity t,
   MathUtils_lerp (of_Z 80) (Experience.targetIntensity t) Experience.lerpSpeed)
  = ("#FF9AA2"%string, 150%float, 83.5%float).
Proof. vm_compute. reflexivity. Qed.

(** ** Hand assignment *)

Section HandAssignment.
Context {A : Type} `{Number A}.

Lemma handStep_detection (res : HandLandmarkerResult A) (i : nat)
    (lms : list (NormalizedLandmark A)) (acc : TwoHandsData A) :
  handStep res i lms acc = (d ← detection res i lms; Some (assign d acc)).
Proof.
  unfold handStep, detection.
  destruct (handedness res !! i) as [cats|]; [|reflexivity]. cbn.
  destruct (cats !! 0%nat) as [c|]; [|reflexivity]. cbn.
  destruct (lms !! 8%nat) as [indexTip|]; [|reflexivity]. cbn.
  destruct (lms !! 4%nat) as [thumbTip|]; reflexivity.
Qed.

Lemma handLoop_detections (res : HandLandmarkerResult A)
    (rest : list (list (NormalizedLandmark A))) :
  forall (i : nat) (acc : TwoHandsData A) (dets : list (string * HandData A)),
    detectionsFrom res i rest = Some dets ->
    handLoop res i rest acc = Some (fold_left (fun a d => assign d a) dets acc).
Proof.
  induction rest as [|lms rest IH]; intros i acc dets Hd; cbn in Hd |- *.
  - now inversion Hd.
  - rewrite handStep_detection.
    destruct (detection res i lms) as [d|]; [|discriminate]. cbn in Hd |- *.
    destruct (detectionsFrom res (S i) rest) as [ds|] eqn:E; [|discriminate].
    cbn in Hd. inversion Hd; subst dets. cbn. now apply IH.
Qed.

Lemma detections_present (res : HandLandmarkerResult A)
    (rest : list (list (NormalizedLandmark A))) :
  forall (i : nat) (dets : list (string * HandData A)),
    detectionsFrom res i rest = Some dets ->
    Forall (fun d => present (snd d) = true) dets.
Proof.
  induction rest as [|lms rest IH]; intros i dets Hd; cbn in Hd.
  - inversion Hd. constructor.
  - unfold detection in Hd.
    destruct (handedness res !! i) as [cats|]; [|discriminate]. cbn in Hd.
    destruct (cats !! 0%nat) as [c|]; [|discriminate]. cbn in Hd.
    destruct (lms !! 8%nat) as [indexTip|]; [|discriminate]. cbn in Hd.
    destruct (lms !! 4%nat) as [thumbTip|]; [|discriminate]. cbn in Hd.
    destruct (detectionsFrom res (S i) rest) as [ds|] eqn:E; [|discriminate].
    cbn in Hd. inversion Hd; subst dets. constructor; [reflexivity|].
    now apply (IH (S i)).
Qed.

Lemma fold_assign_slots (dets : list (string * HandData A)) :
  forall acc : TwoHandsData A,
    left (fold_left (fun a d => assign d a) dets acc)
    = default (left acc)
        (snd <$> last (List.filter (fun d => isLeft (fst d)) dets))
    /\ right (fold_left (fun a d => assign d a) dets acc)
       = default (right acc)
           (snd <$> last (List.filter (fun d => isNotLeft (fst d)) dets)).
Proof.
  induction dets as [|d dets IH]; intros acc; [easy|].
  cbn [fold_left List.filter]. destruct (IH (assign d acc)) as [IHl IHr].
  rewrite IHl, IHr. unfold assign, isLeft, isNotLeft.
  destruct (String.eqb (fst d) "Left"); cbn [negb left right].
  - split; [|reflexivity]. rewrite last_cons.
    clear IH IHl IHr. destruct (last _); reflexivity.
  - split; [reflexivity|]. rewrite last_cons.
    clear IH IHl IHr. destruct (last _); reflexivity.
Qed.
End HandAssignment.

(** C10. When the loop runs through (every hand has its label and its
    landmarks 4 and 8), every detected hand is stored with [present = true],
    the right slot holds the last hand whose label is anything but "Left",
    the left slot holds the last hand labelled "Left", and a slot no hand
    maps to stays absent.  So a hand with an unrecognised label is stored in
    the right slot, and of several hands for one slot the last one wins. *)
Theorem hand_assignment :
  forall (A : Type) (N : Number A) (res : HandLandmarkerResult A)
         (all : list (list (NormalizedLandmark A)))
         (dets : list (string * HandData A)),
    landmarks res = Some all ->
    detectionsFrom res 0 all = Some dets ->
    Forall (fun d => present (snd d) = true) dets
    /\ handLogic res = Some {| left := lastHand isLeft dets;
                               right := lastHand isNotLeft dets |}.
Proof.
  intros A N res all dets Hall Hdets. split.
  - exact (detections_present res all 0%nat dets Hdets).
  - unfold handLogic. rewrite Hall.
    rewrite (handLoop_detections res all 0%nat newHands dets Hdets).
    f_equal.
    destruct (fold_assign_slots dets newHands) as [Hl Hr].
    destruct (fold_left _ dets newHands) as [l r]. cbn in Hl, Hr.
    subst l r. reflexivity.
Qed.

(** At a result with two hands, the first labelled "Banana" and the second
    "Right", on doubles: both map to the right slot, the second one is kept,
    and the left slot stays absent. *)
Lemma hand_assignment_witness :
  let hand := fun k : Z =>
    map (fun i : nat => {| lm_x := dec (Z.of_nat i) 100; lm_y := dec k 10 |})
        (seq 0 21) in
  let res : HandLandmarkerResult float :=
    {| landmarks := Some [hand 3%Z; hand 7%Z];
       handedness := [[{| categoryName := "Banana"; score := dec 9 10 |}];
                      [{| categoryName := "Right"; score := dec 8 10 |}]] |} in
  handLogic res
  = Some {| left := absentHand;
            right := handSignal {| lm_x := dec 8 100; lm_y := dec 7 10 |}
                                {| lm_x := dec 4 100; lm_y := dec 7 10 |} |}.
Proof.
  exact (proj2
    (hand_assignment float FloatNumber
       {| landmarks :=
            Some [map (fun i : nat => {| lm_x := dec (Z.of_nat i) 100; lm_y := dec 3 10 |})
                      (seq 0 21);
                  map (fun i : nat => {| lm_x := dec (Z.of_nat i) 100; lm_y := dec 7 10 |})
                      (seq 0 21)];
          handedness := [[{| categoryName := "Banana"; score := dec 9 10 |}];
                         [{| categoryName := "Right"; score := dec 8 10 |}]] |}
       [map (fun i : nat => {| lm_x := dec (Z.of_nat i) 100; lm_y := dec 3 10 |})
            (seq 0 21);
        map (fun i : nat => {| lm_x := dec (Z.of_nat i) 100; lm_y := dec 7 10 |})
            (seq 0 21)]
       [("Banana"%string,
         handSignal {| lm_x := dec 8 100; lm_y := dec 3 10 |}
                    {| lm_x := dec 4 100; lm_y := dec 3 10 |});
        ("Right"%string,
         handSignal {| lm_x := dec 8 100; lm_y := dec 7 10 |}
                    {| lm_x := dec 4 100; lm_y := dec 7 10 |})]
       eq_refl eq_refl)).
Defined.

(** ** The palette blender *)

Section Blend.
Context {A : Type} `{Number A}.
Variable parseColor : string -> Color A.

Lemma mod5_round (j m : nat) : (j < 5)%nat -> ((j + 5 * m) mod 5 = j)%nat.
Proof.
  intros Hj. rewrite (Nat.mul_comm 5 m), Nat.Div0.mod_add.
  now apply Nat.mod_small.
Qed.

Lemma for_loop_add {S : Type} (n k : nat) (body : nat -> S -> S) (s : S) :
  for_loop (n + k) body s
  = fold_left (fun acc i => body i acc) (seq n k) (for_loop n body s).
Proof. unfold for_loop. now rewrite seq_app, fold_left_app. Qed.

(** Five consecutive instances starting at a multiple of five lerp each of
    the five slots once. *)
Lemma blend_round (h0 h1 h2 h3 h4 : string) (c0 c1 c2 c3 c4 : Color A)
    (m : nat) :
  fold_left
    (fun acc i => ColorSlices.blendInstance parseColor [h0; h1; h2; h3; h4] i acc)
    (seq (5 * m) 5) [c0; c1; c2; c3; c4]
  = [lerpTowards parseColor h0 c0; lerpTowards parseColor h1 c1; lerpTowards parseColor h2 c2;
     lerpTowards parseColor h3 c3; lerpTowards parseColor h4 c4].
Proof.
  pose proof (mod5_round 0 m ltac:(lia)) as E0.
  pose proof (mod5_round 1 m ltac:(lia)) as E1.
  pose proof (mod5_round 2 m ltac:(lia)) as E2.
  pose proof (mod5_round 3 m ltac:(lia)) as E3.
  pose proof (mod5_round 4 m ltac:(lia)) as E4.
  cbn [Nat.add] in E0, E1, E2, E3, E4.
  cbn [seq fold_left]. unfold ColorSlices.blendInstance.
  rewrite E0. cbn [lookup list_lookup insert list_insert].
  rewrite E1. cbn [lookup list_lookup insert list_insert].
  rewrite E2. cbn [lookup list_lookup insert list_insert].
  rewrite E3. cbn [lookup list_lookup insert list_insert].
  rewrite E4. cbn [lookup list_lookup insert list_insert].
  reflexivity.
Qed.

(** A loop over [5 * m] instances lerps every one of the five slots [m]
    times. *)
Lemma blendLoop_rounds (h0 h1 h2 h3 h4 : string) (c0 c1 c2 c3 c4 : Color A)
    (m : nat) :
  ColorSlices.blendLoop parseColor (5 * m) [h0; h1; h2; h3; h4] [c0; c1; c2; c3; c4]
  = [Nat.iter m (lerpTowards parseColor h0) c0; Nat.iter m (lerpTowards parseColor h1) c1;
     Nat.iter m (lerpTowards parseColor h2) c2; Nat.iter m (lerpTowards parseColor h3) c3;
     Nat.iter m (lerpTowards parseColor h4) c4].
Proof.
  induction m as [|m IH]; [reflexivity|].
  unfold ColorSlices.blendLoop in *.
  replace (5 * S m)%nat with (5 * m + 5)%nat by lia.
  rewrite for_loop_add, IH. apply blend_round.
Qed.
End Blend.

Lemma lerp_iter_channels (parseColor : string -> Color R) (hex : string)
    (c : Color R) (n : nat) :
  r (Nat.iter n (lerpTowards parseColor hex) c)
    = r (parseColor hex) + (r c - r (parseColor hex)) * (85 / 100) ^ n
  /\ g (Nat.iter n (lerpTowards parseColor hex) c)
     = g (parseColor hex) + (g c - g (parseColor hex)) * (85 / 100) ^ n
  /\ b (Nat.iter n (lerpTowards parseColor hex) c)
     = b (parseColor hex) + (b c - b (parseColor hex)) * (85 / 100) ^ n.
Proof.
  induction n as [|n (IHr & IHg & IHb)].
  - cbn. repeat split; ring.
  - rewrite Nat.iter_succ.
    set (cn := Nat.iter n (lerpTowards parseColor hex) c) in *.
    unfold lerpTowards, Color_lerp, ColorSlices.lerpSpeed.
    at_R. cbn [r g b]. rewrite IHr, IHg, IHb. cbn [pow]. repeat split; field.
Qed.

(** C3, on the code.  The colour loop runs once per instance and lerps the
    shared colour object of slot [i % 5] in place, so with the 60 instances
    of the configuration one frame lerps every slot 12 times at 0.15: a
    channel [c] with target [t] becomes [t + (c - t) * 0.85 ^ 12], not
    [c + (t - c) * 0.15], the two differing whenever [c] is not [t]; and
    the amount depends on the instance count ([5 * m] instances lerp each
    slot [m] times). *)
Theorem palette_blend_per_frame :
  (forall (parseColor : string -> Color R) (input : InputData R)
      (audio : AudioData R) (audioMode : AudioMode)
      (springs : ColorSlices.Springs R) (tp : list string)
      (c0 c1 c2 c3 c4 : Color R),
      exists h0 h1 h2 h3 h4 : string,
        ColorSlices.nextPalette (face input) = [h0; h1; h2; h3; h4]
        /\ ColorSlices.currentPaletteRef
             (ColorSlices.useFrame parseColor input audio audioMode
                {| ColorSlices.springs := springs;
                   ColorSlices.currentPaletteRef := [c0; c1; c2; c3; c4];
                   ColorSlices.targetPaletteRef := tp;
                   ColorSlices.meshRef := true |})
           = [Nat.iter 12 (lerpTowards parseColor h0) c0;
              Nat.iter 12 (lerpTowards parseColor h1) c1;
              Nat.iter 12 (lerpTowards parseColor h2) c2;
              Nat.iter 12 (lerpTowards parseColor h3) c3;
              Nat.iter 12 (lerpTowards parseColor h4) c4])
  /\ (forall (parseColor : string -> Color R) (hex : string) (c : Color R),
        r (Nat.iter 12 (lerpTowards parseColor hex) c)
        = r (parseColor hex) + (r c - r (parseColor hex)) * (85 / 100) ^ 12)
  /\ (forall (parseColor : string -> Color R) (h0 h1 h2 h3 h4 : string)
        (c0 c1 c2 c3 c4 : Color R) (m : nat),
        ColorSlices.blendLoop parseColor (5 * m) [h0; h1; h2; h3; h4]
          [c0; c1; c2; c3; c4]
        = [Nat.iter m (lerpTowards parseColor h0) c0;
           Nat.iter m (lerpTowards parseColor h1) c1;
           Nat.iter m (lerpTowards parseColor h2) c2;
           Nat.iter m (lerpTowards parseColor h3) c3;
           Nat.iter m (lerpTowards parseColor h4) c4])
  /\ (forall (parseColor : string -> Color R) (hex : string) (c : Color R),
        r c <> r (parseColor hex) ->
        r (Nat.iter 12 (lerpTowards parseColor hex) c)
        <> r c + (r (parseColor hex) - r c) * (15 / 100)).
Proof.
  split; [|split; [|split]].
  - intros parseColor input audio audioMode springs tp c0 c1 c2 c3 c4.
    unfold ColorSlices.useFrame. cbn [ColorSlices.currentPaletteRef ColorSlices.meshRef].
    unfold ColorSlices.nextPalette.
    change CONFIG_sliceCount with (5 * 12)%nat.
    destruct (fst (ColorSlices.determineTargetPalette (face input)));
      cbn [PALETTES]; do 5 eexists; (split; [reflexivity|]);
      apply blendLoop_rounds.
  - intros parseColor hex c. apply lerp_iter_channels.
  - intros. apply blendLoop_rounds.
  - intros parseColor hex c Hne E.
    destruct (lerp_iter_channels parseColor hex c 12) as (Hr & _ & _).
    rewrite Hr in E. cbn [pow] in E. apply Hne. lra.
Qed.

(** The same frame on doubles: slot 0 from black towards white. *)
Example palette_blend_float :
  let white := fun _ : string => {| r := 1; g := 1; b := 1 |}%float in
  let black := {| r := 0; g := 0; b := 0 |}%float in
  r <$> ColorSlices.blendLoop white CONFIG_sliceCount (PALETTES JOY)
          [black; black; black; black; black] !! 0%nat
  = Some 0x1.b72c16a1f2fa6p-1%float.
Proof. vm_compute. reflexivity. Qed.

(** ** Audio features *)

Lemma decays_lerp (x : R) : decays x (AudioManager.lerp x (of_Z 0) (dec 1 10)).
Proof.
  unfold decays, AudioManager.lerp. at_R.
  assert (E : x + (0 - x) * (1 / 10) = 9 / 10 * x) by field.
  rewrite E. repeat split; try lra.
  - rewrite Rabs_mult, (Rabs_pos_eq (9 / 10)) by lra.
    pose proof (Rabs_pos x). lra.
Qed.

Lemma useFrame_inactive (audioMode : AudioMode) (dataArray : list Z)
    (st : AudioManager.State R) :
  listener st = true -> sourceActive audioMode st = false ->
  AudioManager.useFrame audioMode dataArray st
  = AudioManager.withData
      {| low := AudioManager.lerp (low (audioDataRef st)) (of_Z 0) (dec 1 10);
         high := AudioManager.lerp (high (audioDataRef st)) (of_Z 0) (dec 1 10);
         vol := AudioManager.lerp (vol (audioDataRef st)) (of_Z 0) (dec 1 10) |} st.
Proof.
  intros Hl Hs. unfold AudioManager.useFrame, sourceActive in *.
  rewrite Hl. cbn [negb]. now rewrite Hs.
Qed.

Lemma framesOff_data (n : nat) :
  forall st : AudioManager.State R,
    listener st = true ->
    audioDataRef (AudioManager.framesOff n st)
    = {| low := low (audioDataRef st) * (9 / 10) ^ n;
         high := high (audioDataRef st) * (9 / 10) ^ n;
         vol := vol (audioDataRef st) * (9 / 10) ^ n |}.
Proof.
  induction n as [|n IH]; intros st Hl.
  - cbn. destruct (audioDataRef st). cbn. f_equal; ring.
  - cbn [AudioManager.framesOff].
    rewrite (useFrame_inactive OFF [] st Hl)
      by (unfold sourceActive; now rewrite andb_false_r).
    rewrite IH by exact Hl.
    unfold AudioManager.withData, AudioManager.lerp. at_R.
    cbn [audioDataRef low high vol pow]. f_equal; field.
Qed.

Lemma geometric_decay (x : R) :
  converges_to (fun n => x * (9 / 10) ^ n) 0.
Proof.
  intros eps Heps.
  assert (Hq : Rabs (9 / 10) < 1) by (rewrite Rabs_pos_eq; lra).
  assert (Hy : 0 < eps / (Rabs x + 1))
    by (apply Rdiv_lt_0_compat; [lra | pose proof (Rabs_pos x); lra]).
  destruct (pow_lt_1_zero (9 / 10) Hq _ Hy) as [N HN].
  exists N. intros n Hn. specialize (HN n Hn).
  rewrite Rminus_0_r, Rabs_mult.
  pose proof (Rabs_pos x) as Hx. pose proof (Rabs_pos ((9 / 10) ^ n)) as Hp.
  assert (H1 : Rabs x * Rabs ((9 / 10) ^ n) <= Rabs x * (eps / (Rabs x + 1)))
    by (apply Rmult_le_compat_l; lra).
  assert (H2 : Rabs x * (eps / (Rabs x + 1)) < eps).
  { assert (E : eps / (Rabs x + 1) * (Rabs x + 1) = eps) by (field; lra).
    lra. }
  lra.
Qed.

Lemma not_decays_to_zero (x : R) : x <> 0 -> ~ decays x 0.
Proof. intros Hx (_ & _ & _ & Hnz). now apply (Hnz Hx). Qed.

Lemma useFrame_silence (audioMode : AudioMode) (st : AudioManager.State R) :
  listener st = true -> sourceActive audioMode st = true ->
  audioDataRef (AudioManager.useFrame audioMode (replicate 256 0%Z) st)
  = {| low := low (audioDataRef st) + (0 - low (audioDataRef st)) * (3 / 10);
       high := high (audioDataRef st) + (0 - high (audioDataRef st)) * (3 / 10);
       vol := vol (audioDataRef st) + (0 - vol (audioDataRef st)) * (3 / 10) |}.
Proof.
  intros Hl Hs. unfold AudioManager.useFrame, sourceActive in *.
  rewrite Hl. cbn [negb]. rewrite Hs.
  cbn [AudioManager.withData audioDataRef].
  assert (E : forall start stop : nat,
            AudioManager.sumBins (A := R) (replicate 256 0%Z) start stop = 0).
  { intros start stop. unfold AudioManager.sumBins.
    generalize (seq start (stop - start)) as l.
    assert (G : forall (l : list nat) (acc : R),
              acc = 0 ->
              fold_left
                (fun (sum : R) (i : nat) =>
                   nadd sum (of_Z (default 0%Z (replicate 256 0%Z !! i)))) l acc
              = 0).
    { induction l as [|i l IH]; intros acc Hacc; [exact Hacc|].
      cbn [fold_left]. apply IH. rewrite Hacc. at_R.
      destruct (replicate 256 0%Z !! i) as [v|] eqn:Ev; cbn [default from_option].
      - apply lookup_replicate in Ev as [-> _]. cbn. lra.
      - cbn. lra. }
    intros l. apply G. reflexivity. }
  rewrite !E, length_replicate. unfold AudioManager.lerp. at_R.
  change (IZR (Z.of_nat 256)) with 256.
  f_equal; lra.
Qed.

(** C4. The features do not always reach 0 gradually.  The frame callback
    itself decays them: with the listener in place and the spectrum not
    analysed (which is always so in mode OFF), every frame lerps [low],
    [high] and [vol] towards 0 by 0.1, never growing a magnitude and never
    taking a non-zero feature to 0, and over frames in mode OFF the three
    tend to 0.  In the modes MIC and THEREMIN the callback analyses the
    spectrum whenever analyser and buffer exist, a silent spectrum included,
    and then the factor is 0.3.  The mode-switch effect, however, replaces
    the features by 0 at once on every switch into mode OFF, which is no
    decay step from a non-zero feature.  After one MIC frame on a spectrum of
    all 255 the bass feature is 0.3; a frame in mode OFF would leave 0.27,
    the switch into OFF leaves 0. *)
Theorem audio_off_switch_snaps :
  (forall (audioMode : AudioMode) (dataArray : list Z)
          (st : AudioManager.State R),
     listener st = true -> sourceActive audioMode st = false ->
     let d := audioDataRef st in
     let d' := audioDataRef (AudioManager.useFrame audioMode dataArray st) in
     decays (low d) (low d') /\ decays (high d) (high d')
     /\ decays (vol d) (vol d'))
  /\ (forall st : AudioManager.State R,
        sourceActive OFF st = false
        /\ (listener st = true ->
            converges_to
              (fun n => low (audioDataRef (AudioManager.framesOff n st))) 0
            /\ converges_to
                 (fun n => high (audioDataRef (AudioManager.framesOff n st))) 0
            /\ converges_to
                 (fun n => vol (audioDataRef (AudioManager.framesOff n st))) 0))
  /\ (forall (audioMode : AudioMode) (st : AudioManager.State R),
        listener st = true -> analyserRef st = true -> dataArrayRef st = true ->
        audioMode <> OFF ->
        let d := audioDataRef st in
        audioDataRef (AudioManager.useFrame audioMode (replicate 256 0%Z) st)
        = {| low := low d + (0 - low d) * (3 / 10);
             high := high d + (0 - high d) * (3 / 10);
             vol := vol d + (0 - vol d) * (3 / 10) |})
  /\ (forall st : AudioManager.State R,
        listener st = true ->
        let d := audioDataRef st in
        let d' := audioDataRef (AudioManager.setupAudio OFF st) in
        d' = {| low := 0; high := 0; vol := 0 |}
        /\ (low d <> 0 -> ~ decays (low d) (low d'))
        /\ (high d <> 0 -> ~ decays (high d) (high d'))
        /\ (vol d <> 0 -> ~ decays (vol d) (vol d')))
  /\ (let st0 := {| audioDataRef := {| low := 0; high := 0; vol := 0 |};
                    listener := true; analyserRef := true;
                    dataArrayRef := true |} in
      let st1 := AudioManager.useFrame MIC (replicate 256 255%Z) st0 in
      low (audioDataRef st1) = 3 / 10
      /\ low (audioDataRef (AudioManager.useFrame OFF [] st1)) = 27 / 100
      /\ audioDataRef (AudioManager.setupAudio OFF st1)
         = {| low := 0; high := 0; vol := 0 |}
      /\ AudioManager.lerp (low (audioDataRef st1)) 0 (1 / 10) = 27 / 100
      /\ low (audioDataRef (AudioManager.setupAudio OFF st1))
         <> AudioManager.lerp (low (audioDataRef st1)) 0 (1 / 10)
      /\ ~ decays (low (audioDataRef st1))
                  (low (audioDataRef (AudioManager.setupAudio OFF st1)))).
Proof.
  split; [|split; [|split; [|split]]].
  - intros audioMode dataArray st Hl Hs. cbv zeta.
    rewrite (useFrame_inactive audioMode dataArray st Hl Hs).
    cbn [AudioManager.withData audioDataRef low high vol].
    split; [|split]; apply decays_lerp.
  - intros st. split.
    { unfold sourceActive. now rewrite andb_false_r. }
    intros Hl. split; [|split]; intros eps Heps.
    + destruct (geometric_decay (low (audioDataRef st)) eps Heps) as [N HN].
      exists N. intros n Hn. rewrite (framesOff_data n st Hl). now apply HN.
    + destruct (geometric_decay (high (audioDataRef st)) eps Heps) as [N HN].
      exists N. intros n Hn. rewrite (framesOff_data n st Hl). now apply HN.
    + destruct (geometric_decay (vol (audioDataRef st)) eps Heps) as [N HN].
      exists N. intros n Hn. rewrite (framesOff_data n st Hl). now apply HN.
  - intros audioMode st Hl Ha Hb Hm. cbv zeta.
    apply useFrame_silence; [exact Hl|].
    unfold sourceActive. rewrite Ha, Hb. now destruct audioMode.
  - intros st Hl. cbv zeta.
    assert (E : audioDataRef (AudioManager.setupAudio OFF st)
                = {| low := 0; high := 0; vol := 0 |}).
    { unfold AudioManager.setupAudio. now rewrite Hl. }
    rewrite E. cbn [low high vol].
    split; [reflexivity|]. split; [|split]; apply not_decays_to_zero.
  - cbv zeta.
    set (st0 := {| audioDataRef := {| low := 0; high := 0; vol := 0 |};
                   listener := true; analyserRef := true; dataArrayRef := true |}).
    assert (Hlow : low (audioDataRef
                          (AudioManager.useFrame MIC (replicate 256 255%Z) st0))
                   = 3 / 10).
    { unfold AudioManager.useFrame, st0.
      cbn [listener negb analyserRef dataArrayRef andb audioDataRef
           AudioManager.withData low].
      unfold AudioManager.lerp, AudioManager.sumBins. at_R.
      cbn [seq Nat.sub fold_left replicate lookup list_lookup default from_option
           Datatypes.id].
      field. }
    assert (Hframe : low (audioDataRef
                            (AudioManager.useFrame OFF []
                               (AudioManager.useFrame MIC (replicate 256 255%Z) st0)))
                     = AudioManager.lerp
                         (low (audioDataRef
                                 (AudioManager.useFrame MIC (replicate 256 255%Z) st0)))
                         0 (1 / 10)) by reflexivity.
    assert (Hoff : audioDataRef (AudioManager.setupAudio OFF
                     (AudioManager.useFrame MIC (replicate 256 255%Z) st0))
                   = {| low := 0; high := 0; vol := 0 |}) by reflexivity.
    rewrite Hframe, Hoff, Hlow. cbn [low]. unfold AudioManager.lerp. at_R.
    split; [reflexivity|]. split; [lra|]. split; [reflexivity|].
    split; [lra|]. split; [lra|]. apply not_decays_to_zero. lra.
Qed.

(** The same trace on doubles. *)
Example audio_off_switch_float :
  let st0 := {| audioDataRef := {| low := 0; high := 0; vol := 0 |}%float;
                listener := true; analyserRef := true; dataArrayRef := true |} in
  let st1 := AudioManager.useFrame MIC (replicate 256 255%Z) st0 in
  (low (audioDataRef st1), low (audioDataRef (AudioManager.useFrame OFF [] st1)),
   low (audioDataRef (AudioManager.setupAudio OFF st1)))
  = (0x1.3333333333333p-2, 0x1.147ae147ae148p-2, 0)%float.
Proof. vm_compute. reflexivity. Qed.

(** * Further properties of the code *)
(** ** More on the spring integrator *)

(** X1. The states that [update] leaves unchanged are exactly the states at
    rest: velocity 0 and either the value on the target or stiffness 0. *)
Theorem update_fixed_point (s : SpringValue R) :
  update s = s
  <-> velocity s = 0 /\ (value s = target s \/ stiffness s = 0).
Proof.
  destruct s as [x T v k d]. unfold update. at_R. cbn. split.
  - intros E. injection E as Ex Ev.
    assert (Hv : v = 0) by lra. subst v. split; [reflexivity|].
    assert (Hp : (T - x) * k = 0) by lra.
    apply Rmult_integral in Hp. destruct Hp; [left; lra | now right].
  - intros [-> [-> | ->]]; f_equal; ring.
Qed.

Lemma lyapunov_lower_prev (s : SpringValue R) :
  discriminant s
  * ((value s - target s - velocity s) * (value s - target s - velocity s))
  <= 2 * (1 + damping s) * lyapunov s.
Proof.
  unfold discriminant, lyapunov, weight. cbv zeta.
  set (d := damping s). set (tau := 1 + d - stiffness s).
  set (b := value s - target s). set (a := b - velocity s).
  set (w := (1 + d) * (1 + d * d) - tau * tau * (1 - d)).
  pose proof (Rle_0_sqr (2 * (1 + d) * b - 2 * d * tau * a)) as Hsq.
  unfold Rsqr in Hsq. lra.
Qed.

(** In the stable range the energy falls below every positive bound. *)
Lemma lyapunov_vanishes (s : SpringValue R) :
  stable s ->
  forall eps : R, 0 < eps ->
    exists N : nat, forall n : nat, (N <= n)%nat -> lyapunov (update_n n s) < eps.
Proof.
  intros Hs eps Heps.
  pose proof (contraction_range s Hs) as Hr.
  pose proof (lyapunov_nonneg s Hs) as HV.
  assert (Hy : 0 < eps / (lyapunov s + 1)) by (apply Rdiv_lt_0_compat; lra).
  destruct (pow_lt_1_zero (contraction s) (Rabs_def1 _ _ (proj2 Hr) ltac:(lra)) _ Hy)
    as [N HN].
  exists N. intros n Hn. specialize (HN n Hn).
  apply Rabs_def2 in HN. destruct HN as [HN _].
  pose proof (lyapunov_n n s Hs) as Hdec.
  assert (H1 : contraction s ^ n * lyapunov s
               <= eps / (lyapunov s + 1) * lyapunov s)
    by (apply Rmult_le_compat_r; lra).
  assert (E : eps / (lyapunov s + 1) * (lyapunov s + 1) = eps) by (field; lra).
  lra.
Qed.

Lemma update_n_stable (n : nat) (s : SpringValue R) :
  stable s -> stable (update_n n s).
Proof.
  intros Hs. unfold stable in *.
  destruct (update_n_params n s) as (_ & -> & ->). exact Hs.
Qed.

Lemma velocity_energy (s : SpringValue R) :
  stable s ->
  discriminant s * (velocity s * velocity s)
  <= 2 * (2 * (1 + damping s) + weight s) * lyapunov s.
Proof.
  intros Hs.
  pose proof (lyapunov_lower s) as Hb. pose proof (lyapunov_lower_prev s) as Ha.
  pose proof (discriminant_pos s Hs) as HD.
  set (b := value s - target s) in *. set (a := b - velocity s) in *.
  assert (Ev : velocity s = b - a) by (unfold a; ring).
  rewrite Ev.
  pose proof (Rle_0_sqr (a + b)) as Hsq. unfold Rsqr in Hsq.
  assert (H2 : (b - a) * (b - a) <= 2 * (a * a) + 2 * (b * b)) by lra.
  assert (H3 : discriminant s * ((b - a) * (b - a))
               <= discriminant s * (2 * (a * a) + 2 * (b * b)))
    by (apply Rmult_le_compat_l; lra).
  lra.
Qed.

(** X2. In the stable range the spring comes to rest: under repeated
    [update] the velocity tends to 0. *)
Theorem spring_comes_to_rest (s : SpringValue R) :
  0 < damping s < 1 ->
  0 < stiffness s < 2 * (1 + damping s) ->
  converges_to (fun n => velocity (update_n n s)) 0.
Proof.
  intros Hd Hk eps Heps.
  assert (Hs : stable s) by (split; assumption).
  pose proof (discriminant_pos s Hs) as HD.
  pose proof (weight_pos s Hs) as Hw.
  assert (Hdd : 0 < damping s * damping s) by (apply Rmult_lt_0_compat; lra).
  assert (Hw0 : 0 < weight s).
  { assert (0 < 2 * (damping s * damping s) * (1 + damping s))
      by (apply Rmult_lt_0_compat; lra). lra. }
  set (C := 2 * (2 * (1 + damping s) + weight s)).
  assert (HC : 0 < C) by (unfold C; lra).
  assert (Hy : 0 < eps * eps * discriminant s / C).
  { apply Rdiv_lt_0_compat; [|exact HC].
    repeat apply Rmult_lt_0_compat; assumption. }
  destruct (lyapunov_vanishes s Hs _ Hy) as [N HN].
  exists N. intros n Hn. rewrite Rminus_0_r.
  apply square_lt_abs; [assumption|].
  specialize (HN n Hn).
  pose proof (velocity_energy (update_n n s) (update_n_stable n s Hs)) as Hv.
  destruct (update_n_params n s) as (Et & Ek & Ed).
  assert (ED : discriminant (update_n n s) = discriminant s)
    by (unfold discriminant, weight; now rewrite Ek, Ed).
  assert (EW : weight (update_n n s) = weight s)
    by (unfold weight; now rewrite Ek, Ed).
  rewrite ED, EW, Ed in Hv. fold C in Hv.
  set (v2 := velocity (update_n n s) * velocity (update_n n s)) in *.
  set (Vn := lyapunov (update_n n s)) in *. set (D := discriminant s) in *.
  assert (H1 : C * Vn < C * (eps * eps * D / C)) by (apply Rmult_lt_compat_l; lra).
  assert (H2 : C * (eps * eps * D / C) = eps * eps * D) by (field; lra).
  assert (H3 : D * v2 < D * (eps * eps)) by lra.
  apply Rmult_lt_reg_l in H3; assumption.
Qed.

(** At the stack-height spring of the component, retargeted from 12 to 30. *)
Lemma spring_comes_to_rest_witness :
  converges_to
    (fun n => velocity (update_n n (set_target 30 (new_SpringValue 12 (dec 5 100) (dec 85 100)))))
    0.
Proof.
  apply (spring_comes_to_rest (set_target 30 (new_SpringValue 12 (dec 5 100) (dec 85 100))));
    at_R; cbn; lra.
Defined.


(** ** More on the animation loop *)

(** X3. The audio kick is added on top of the target tracking: in a mode
    other than OFF and with [low > 0.4], the frame leaves the stack-height
    spring's value and velocity higher than the same frame without kick by
    its damping times [low * 0.1], the radius spring's by its damping times
    [low * 0.05], and the twist and chaos springs as without kick. *)
Theorem kick_is_additive (parseColor : string -> Color R) (input : InputData R)
    (audio : AudioData R) (audioMode : AudioMode) (st : ColorSlices.State R) :
  audioMode <> OFF ->
  low audio > 4 / 10 ->
  let quiet :=
    ColorSlices.springs (ColorSlices.useFrame parseColor input audio OFF st) in
  let kicked :=
    ColorSlices.springs (ColorSlices.useFrame parseColor input audio audioMode st) in
  let dh := damping (ColorSlices.stackHeight (ColorSlices.springs st))
            * (low audio * (1 / 10)) in
  let dr := damping (ColorSlices.radiusScale (ColorSlices.springs st))
            * (low audio * (5 / 100)) in
  value (ColorSlices.stackHeight kicked)
    = value (ColorSlices.stackHeight quiet) + dh
  /\ velocity (ColorSlices.stackHeight kicked)
     = velocity (ColorSlices.stackHeight quiet) + dh
  /\ value (ColorSlices.radiusScale kicked)
     = value (ColorSlices.radiusScale quiet) + dr
  /\ velocity (ColorSlices.radiusScale kicked)
     = velocity (ColorSlices.radiusScale quiet) + dr
  /\ ColorSlices.twist kicked = ColorSlices.twist quiet
  /\ ColorSlices.chaos kicked = ColorSlices.chaos quiet.
Proof.
  intros Hmode Hlow. cbv zeta.
  assert (Hk : ColorSlices.audioKick audioMode audio (ColorSlices.springs st)
               = {| ColorSlices.stackHeight :=
                      add_velocity (nmul (low audio) (dec 1 10))
                        (ColorSlices.stackHeight (ColorSlices.springs st));
                    ColorSlices.twist := ColorSlices.twist (ColorSlices.springs st);
                    ColorSlices.radiusScale :=
                      add_velocity (nmul (low audio) (dec 5 100))
                        (ColorSlices.radiusScale (ColorSlices.springs st));
                    ColorSlices.chaos := ColorSlices.chaos (ColorSlices.springs st) |}).
  { unfold ColorSlices.audioKick. at_R.
    assert (E : Rgtb (low audio) (4 / 10) = true) by (apply Rgtb_true; lra).
    rewrite E. destruct audioMode; [contradiction| reflexivity | reflexivity]. }
  unfold ColorSlices.useFrame. cbn [ColorSlices.springs]. rewrite Hk.
  unfold ColorSlices.updateSprings, ColorSlices.audioKick, update, set_target,
    add_velocity.
  at_R. cbn. repeat split; ring.
Qed.

(** On the initial state of the component, in MIC mode at full bass. *)
Lemma kick_is_additive_witness :
  let st := ColorSlices.initialState (fun _ => {| r := 0; g := 0; b := 0 |}) true in
  let input : InputData R := initialInputData in
  let audio := {| low := 1; high := 0; vol := 0 |} in
  let quiet :=
    ColorSlices.springs
      (ColorSlices.useFrame (fun _ => {| r := 0; g := 0; b := 0 |}) input audio OFF st) in
  let kicked :=
    ColorSlices.springs
      (ColorSlices.useFrame (fun _ => {| r := 0; g := 0; b := 0 |}) input audio MIC st) in
  value (ColorSlices.radiusScale kicked)
  = value (ColorSlices.radiusScale quiet)
    + damping (ColorSlices.radiusScale (ColorSlices.springs st)) * (1 * (5 / 100)).
Proof.
  refine (proj1 (proj2 (proj2
    (kick_is_additive (fun _ => {| r := 0; g := 0; b := 0 |}) initialInputData
       {| low := 1; high := 0; vol := 0 |} MIC
       (ColorSlices.initialState (fun _ => {| r := 0; g := 0; b := 0 |}) true)
       _ _)))).
  - discriminate.
  - cbn. lra.
Defined.

(** X4. Audio that does not kick does not matter: in mode OFF, and in any
    mode with [low <= 0.4], the frame's result is the one of mode OFF with
    any other audio features; and the palettes never depend on the audio. *)
Theorem quiet_audio_is_ignored :
  forall (parseColor : string -> Color R) (input : InputData R)
         (st : ColorSlices.State R),
    (forall audio audio' : AudioData R,
       ColorSlices.useFrame parseColor input audio OFF st
       = ColorSlices.useFrame parseColor input audio' OFF st)
    /\ (forall (audioMode : AudioMode) (audio audio' : AudioData R),
          low audio <= 4 / 10 ->
          ColorSlices.useFrame parseColor input audio audioMode st
          = ColorSlices.useFrame parseColor input audio' OFF st)
    /\ (forall (audioMode audioMode' : AudioMode) (audio audio' : AudioData R),
          ColorSlices.currentPaletteRef
            (ColorSlices.useFrame parseColor input audio audioMode st)
          = ColorSlices.currentPaletteRef
              (ColorSlices.useFrame parseColor input audio' audioMode' st)
          /\ ColorSlices.targetPaletteRef
               (ColorSlices.useFrame parseColor input audio audioMode st)
             = ColorSlices.targetPaletteRef
                 (ColorSlices.useFrame parseColor input audio' audioMode' st)).
Proof.
  intros parseColor input st. split; [|split].
  - reflexivity.
  - intros audioMode audio audio' Hlow.
    unfold ColorSlices.useFrame, ColorSlices.audioKick. at_R.
    assert (E : Rgtb (low audio) (4 / 10) = false) by (apply Rgtb_false; lra).
    rewrite E. now destruct audioMode.
  - intros. split; reflexivity.
Qed.

(** X5. In real arithmetic, for hand coordinates in [-1, 1] the spring
    targets stay in fixed ranges: stack height in [6, 30], twist in
    [-4 PI, 4 PI], radius in [0.2, 1.8] and chaos in [0, 1].  On doubles the
    end points of height and chaos are met exactly (6 and 30, 0 and 1) and
    the radius at [y = 1] is the double 1.8, but the radius at [y = -1]
    evaluates to 0.19999999999999996, below the double 0.2: there the lower
    bound of the radius holds up to one rounding only. *)
Theorem target_ranges :
  (forall left right : HandData R,
     -1 <= x left <= 1 -> -1 <= y left <= 1 ->
     -1 <= x right <= 1 -> -1 <= y right <= 1 ->
     let t := ColorSlices.calculateTargets left right in
     6 <= ColorSlices.targetHeight t <= 30
     /\ - (4 * PI) <= ColorSlices.targetTwist t <= 4 * PI
     /\ 2 / 10 <= ColorSlices.targetRadius t <= 18 / 10
     /\ 0 <= ColorSlices.targetChaos t <= 1)
  /\ (let hand := fun c : float =>
                    {| present := true; x := c; y := c; pinch := 0%float |} in
      let t := fun c : float =>
                 ColorSlices.calculateTargets (hand c) (hand c) in
      (ColorSlices.targetHeight (t (-1)%float),
       ColorSlices.targetHeight (t 1%float))
      = (6%float, 30%float)
      /\ (ColorSlices.targetChaos (t (-1)%float),
          ColorSlices.targetChaos (t 1%float))
         = (0%float, 1%float)
      /\ ColorSlices.targetRadius (t 1%float) = dec 18 10
      /\ ColorSlices.targetRadius (t (-1)%float) = 0x1.9999999999998p-3%float
      /\ PrimFloat.ltb (ColorSlices.targetRadius (t (-1)%float)) (dec 2 10)
         = true).
Proof.
  split.
  - intros left right Hxl Hyl Hxr Hyr. cbv zeta.
    unfold ColorSlices.calculateTargets, CONFIG_stackHeight. at_R.
    cbn [ColorSlices.targetHeight ColorSlices.targetTwist
         ColorSlices.targetRadius ColorSlices.targetChaos].
    pose proof PI_RGT_0 as Hpi.
    assert (Hmax : 5 / 10 <= Rmax (5 / 10) (15 / 10 + y left) <= 25 / 10).
    { unfold Rmax. destruct (Rle_dec _ _); lra. }
    assert (Htw : - PI <= x left * PI <= PI).
    { split.
      - assert (-1 * PI <= x left * PI) by (apply Rmult_le_compat_r; lra). lra.
      - assert (x left * PI <= 1 * PI) by (apply Rmult_le_compat_r; lra). lra. }
    destruct (present left), (present right); repeat split; lra.
  - vm_compute. repeat split; reflexivity.
Qed.

(** With both hands at the top right corner. *)
Lemma target_ranges_witness :
  let h : HandData R := {| present := true; x := 1; y := 1; pinch := 0 |} in
  6 <= ColorSlices.targetHeight (ColorSlices.calculateTargets h h) <= 30.
Proof.
  refine (proj1 (proj1 target_ranges
                   {| present := true; x := 1; y := 1; pinch := 0 |}
                   {| present := true; x := 1; y := 1; pinch := 0 |} _ _ _ _));
    cbn; lra.
Defined.

(** X6. The emotion intensity is 0 exactly when the palette is DEFAULT, and
    otherwise it is the score that selected the palette, which exceeds its
    threshold: the smile above 0.4 for JOY, the open mouth above 0.2 for
    SURPRISE, the lowered brow above 0.3 for MOODY. *)
Theorem emotion_intensity :
  forall face : FaceData R,
    let mood := fst (ColorSlices.determineTargetPalette face) in
    let e := snd (ColorSlices.determineTargetPalette face) in
    (mood = DEFAULT /\ e = 0)
    \/ (mood = JOY /\ e = smile face /\ 4 / 10 < e)
    \/ (mood = SURPRISE /\ e = mouthOpen face /\ 2 / 10 < e)
    \/ (mood = MOODY /\ e = browDown face /\ 3 / 10 < e).
Proof.
  intros [p sm mo br]. unfold ColorSlices.determineTargetPalette. at_R. cbn.
  destruct p; [|now left].
  destruct (Rgtb sm (4 / 10)) eqn:Es.
  { apply Rgtb_true in Es. right; left. cbn. easy. }
  destruct (Rgtb mo (2 / 10)) eqn:Em.
  { apply Rgtb_true in Em. right; right; left. cbn. easy. }
  destruct (Rgtb br (3 / 10)) eqn:Eb.
  { apply Rgtb_true in Eb. right; right; right. cbn. easy. }
  now left.
Qed.


(** ** More on the signal extraction *)

Lemma pinchOf_cases (d : R) :
  (d <= 2 / 100 /\ pinchOf d = 0)
  \/ (2 / 100 <= d <= 17 / 100 /\ pinchOf d = (100 * d - 2) / 15)
  \/ (17 / 100 <= d /\ pinchOf d = 1).
Proof.
  rewrite pinchOf_unfold.
  replace ((d - 2 / 100) / (15 / 100)) with ((100 * d - 2) / 15) by field.
  unfold Rmin, Rmax.
  repeat destruct (Rle_dec _ _);
    first [ left; split; lra | right; left; split; lra
          | right; right; split; lra | lra ].
Qed.

(** X7. The pinch never decreases when the fingertips move apart. *)
Theorem pinch_monotone (d1 d2 : R) :
  d1 <= d2 -> pinchOf d1 <= pinchOf d2.
Proof.
  intros H.
  destruct (pinchOf_cases d1) as [[H1 ->] | [[H1 ->] | [H1 ->]]];
    destruct (pinchOf_cases d2) as [[H2 ->] | [[H2 ->] | [H2 ->]]]; lra.
Qed.

Lemma pinch_monotone_witness : pinchOf (5 / 100) <= pinchOf (10 / 100).
Proof. apply (pinch_monotone (5 / 100) (10 / 100)). lra. Defined.

(** X8. A hand whose index tip lies in the image (coordinates in [0, 1]) is
    published with [x] and [y] in [-1, 1] and pinch in [0, 1], and with
    [x = 1 - 2 * rawX], [y = 1 - 2 * rawY]: the left edge of the image is
    [x = 1], its top is [y = 1]. *)
Theorem hand_signal_range (indexTip thumbTip : NormalizedLandmark R) :
  0 <= lm_x indexTip <= 1 -> 0 <= lm_y indexTip <= 1 ->
  let h := handSignal indexTip thumbTip in
  present h = true
  /\ x h = 1 - 2 * lm_x indexTip /\ y h = 1 - 2 * lm_y indexTip
  /\ -1 <= x h <= 1 /\ -1 <= y h <= 1 /\ 0 <= pinch h <= 1.
Proof.
  intros Hx Hy. cbv zeta. unfold handSignal. at_R. cbn [present x y pinch].
  split; [reflexivity|]. split; [ring|]. split; [ring|].
  split; [lra|]. split; [lra|].
  match goal with |- 0 <= pinchOf ?d <= 1 =>
    destruct (pinchOf_cases d) as [[H1 ->] | [[H1 ->] | [H1 ->]]]; lra end.
Qed.

Lemma hand_signal_range_witness :
  let h : HandData R :=
    handSignal {| lm_x := 1 / 4; lm_y := 3 / 4 |} {| lm_x := 1 / 2; lm_y := 1 / 2 |} in
  x h = 1 - 2 * (1 / 4).
Proof.
  refine (proj1 (proj2
    (hand_signal_range {| lm_x := 1 / 4; lm_y := 3 / 4 |}
                       {| lm_x := 1 / 2; lm_y := 1 / 2 |} _ _))); cbn; lra.
Defined.

(** X9. Mirroring the image left to right negates [x] and keeps [y] and the
    pinch; exchanging the two fingertips keeps the pinch. *)
Theorem hand_signal_mirror :
  forall indexTip thumbTip : NormalizedLandmark R,
    let mirror := fun p : NormalizedLandmark R =>
      {| lm_x := 1 - lm_x p; lm_y := lm_y p |} in
    x (handSignal (mirror indexTip) (mirror thumbTip))
      = - x (handSignal indexTip thumbTip)
    /\ y (handSignal (mirror indexTip) (mirror thumbTip))
       = y (handSignal indexTip thumbTip)
    /\ pinch (handSignal (mirror indexTip) (mirror thumbTip))
       = pinch (handSignal indexTip thumbTip)
    /\ pinch (handSignal thumbTip indexTip) = pinch (handSignal indexTip thumbTip).
Proof.
  intros [ix iy] [tx ty]. cbv zeta. unfold handSignal, distanceOf. at_R.
  cbn [present x y pinch lm_x lm_y]. repeat split.
  - ring.
  - do 2 f_equal. ring.
  - do 2 f_equal. ring.
Qed.

(** ** The face logic *)

Lemma getScore_found (shapes : list (Category R)) (name : string) (c : Category R) :
  List.find (fun s => String.eqb (categoryName s) name) shapes = Some c ->
  getScore shapes name = score c.
Proof.
  intros E. unfold getScore. rewrite E. cbn [nfalsy RTests of_Z RNumber].
  unfold Rfalsy. destruct (Req_dec_T (score c) 0) as [->|]; reflexivity.
Qed.

Lemma getScore_missing (shapes : list (Category R)) (name : string) :
  List.find (fun s => String.eqb (categoryName s) name) shapes = None ->
  getScore shapes name = 0.
Proof. intros E. unfold getScore. now rewrite E. Qed.

Lemma find_absent (name : string) (shapes : list (Category R)) :
  Forall (fun s => categoryName s <> name) shapes ->
  List.find (fun s => String.eqb (categoryName s) name) shapes = None.
Proof.
  intros Hb. induction Hb as [|s l Hs _ IH]; [reflexivity|]. cbn.
  destruct (String.eqb_spec (categoryName s) name); [contradiction | exact IH].
Qed.

(** X10. The score lookup fails soft and takes the first match: a name that
    no category of the table carries gives 0, and otherwise the lookup gives
    the score of the first category with that name, whatever follows it. *)
Theorem getScore_first_match :
  forall (name : string) (before after : list (Category R)),
    Forall (fun s => categoryName s <> name) before ->
    getScore before name = 0
    /\ forall c : Category R,
         categoryName c = name ->
         getScore (before ++ c :: after) name = score c.
Proof.
  intros name before after Hb.
  split; [now apply getScore_missing, find_absent|].
  intros c Hc. apply getScore_found.
  induction Hb as [|s l Hs _ IH]; cbn.
  - now rewrite Hc, String.eqb_refl.
  - destruct (String.eqb_spec (categoryName s) name); [contradiction | exact IH].
Qed.

Lemma getScore_first_match_witness :
  getScore [ {| categoryName := "jawOpen"; score := 1 / 4 |};
             {| categoryName := "jawOpen"; score := 3 / 4 |} ] "jawOpen" = 1 / 4.
Proof.
  exact (proj2 (getScore_first_match "jawOpen" []
                  [ {| categoryName := "jawOpen"; score := 3 / 4 |} ]
                  (List.Forall_nil _))
               {| categoryName := "jawOpen"; score := 1 / 4 |} eq_refl).
Defined.

Lemma getScore_range (shapes : list (Category R)) (name : string) :
  Forall (fun s => 0 <= score s <= 1) shapes ->
  0 <= getScore shapes name <= 1.
Proof.
  intros Hs.
  destruct (List.find (fun s => String.eqb (categoryName s) name) shapes) as [c|] eqn:E.
  - rewrite (getScore_found _ _ _ E).
    apply find_some in E. destruct E as [Hin _].
    rewrite List.Forall_forall in Hs. now apply Hs.
  - rewrite (getScore_missing _ _ E). lra.
Qed.

(** X11. With every blendshape score in [0, 1], the published face signals
    [smile], [mouthOpen] and [browDown] are in [0, 1]; and a result without
    blendshapes, or with an empty list of them, gives the absent face with
    all signals 0. *)
Theorem face_signal_range (res : FaceLandmarkerResult R) :
  (forall first rest, faceBlendshapes res = Some (first :: rest) ->
     Forall (fun s => 0 <= score s <= 1) (categories first)) ->
  let f := faceLogic res in
  0 <= smile f <= 1 /\ 0 <= mouthOpen f <= 1 /\ 0 <= browDown f <= 1
  /\ (face_present f = false <->
      faceBlendshapes res = None \/ faceBlendshapes res = Some [])
  /\ (face_present f = false -> f = newFace).
Proof.
  intros Hs. cbv zeta. unfold faceLogic.
  destruct (faceBlendshapes res) as [[|first rest]|] eqn:E.
  - unfold newFace. at_R. cbn. repeat split; try lra; auto.
  - specialize (Hs first rest eq_refl). cbv zeta. at_R.
    cbn [smile mouthOpen browDown face_present].
    pose proof (getScore_range _ "mouthSmileLeft" Hs) as H1.
    pose proof (getScore_range _ "mouthSmileRight" Hs) as H2.
    pose proof (getScore_range _ "jawOpen" Hs) as H3.
    pose proof (getScore_range _ "browDownLeft" Hs) as H4.
    pose proof (getScore_range _ "browDownRight" Hs) as H5.
    repeat split; try lra; try discriminate.
    intros [Hn|Hn]; discriminate.
  - unfold newFace. at_R. cbn. repeat split; try lra; auto.
Qed.

Lemma face_signal_range_witness :
  let res : FaceLandmarkerResult R :=
    {| faceBlendshapes :=
         Some [ {| categories :=
                     [ {| categoryName := "mouthSmileLeft"; score := 1 |};
                       {| categoryName := "mouthSmileRight"; score := 1 / 2 |} ] |} ] |} in
  0 <= smile (faceLogic res) <= 1.
Proof.
  refine (proj1 (face_signal_range
    {| faceBlendshapes :=
         Some [ {| categories :=
                     [ {| categoryName := "mouthSmileLeft"; score := 1 |};
                       {| categoryName := "mouthSmileRight"; score := 1 / 2 |} ] |} ] |} _)).
  intros first rest E. cbn in E. injection E as <- <-. cbn.
  apply List.Forall_cons; [cbn; lra|].
  apply List.Forall_cons; [cbn; lra|].
  apply List.Forall_nil.
Defined.


(** X12. A detected face whose table carries none of the five blendshape
    names that the tracker reads is published as present with all signals
    0; it selects the DEFAULT palette with emotion intensity 0 and the
    neutral lighting. *)
Theorem unlabelled_face_is_neutral (res : FaceLandmarkerResult R)
    (first : Classifications R) (rest : list (Classifications R)) :
  faceBlendshapes res = Some (first :: rest) ->
  Forall (fun s => ~ In (categoryName s)
                       ["mouthSmileLeft"; "mouthSmileRight"; "jawOpen";
                        "browDownLeft"; "browDownRight"]%string)
         (categories first) ->
  faceLogic res = {| face_present := true; smile := 0; mouthOpen := 0;
                     browDown := 0 |}
  /\ ColorSlices.determineTargetPalette (faceLogic res) = (DEFAULT, 0)
  /\ Experience.determineLighting (faceLogic res) = lightingOfMood DEFAULT.
Proof.
  intros E Hn.
  assert (Hz : forall name,
             In name ["mouthSmileLeft"; "mouthSmileRight"; "jawOpen";
                      "browDownLeft"; "browDownRight"]%string ->
             getScore (categories first) name = 0).
  { intros name Hin.
    apply getScore_missing, find_absent.
    eapply List.Forall_impl; [|exact Hn].
    intros s Hs Heq. apply Hs. now rewrite Heq. }
  assert (Hf : faceLogic res = {| face_present := true; smile := 0;
                                  mouthOpen := 0; browDown := 0 |}).
  { unfold faceLogic. rewrite E. cbv zeta.
    rewrite !Hz by (cbn; tauto). at_R. f_equal; field. }
  split; [exact Hf|]. rewrite lighting_follows_mood, Hf.
  assert (Hd : ColorSlices.determineTargetPalette
                 {| face_present := true; smile := 0; mouthOpen := 0;
                    browDown := 0 |} = (DEFAULT, 0)).
  { unfold ColorSlices.determineTargetPalette. at_R. cbn.
    assert (E4 : Rgtb 0 (4 / 10) = false) by (apply Rgtb_false; lra).
    assert (E2 : Rgtb 0 (2 / 10) = false) by (apply Rgtb_false; lra).
    assert (E3 : Rgtb 0 (3 / 10) = false) by (apply Rgtb_false; lra).
    now rewrite E4, E2, E3. }
  now rewrite Hd.
Qed.

Lemma unlabelled_face_is_neutral_witness :
  let res : FaceLandmarkerResult R :=
    {| faceBlendshapes :=
         Some [ {| categories := [ {| categoryName := "eyeBlinkLeft"; score := 1 |} ] |} ] |} in
  ColorSlices.determineTargetPalette (faceLogic res) = (DEFAULT, 0).
Proof.
  refine (proj1 (proj2 (unlabelled_face_is_neutral
    {| faceBlendshapes :=
         Some [ {| categories := [ {| categoryName := "eyeBlinkLeft"; score := 1 |} ] |} ] |}
    {| categories := [ {| categoryName := "eyeBlinkLeft"; score := 1 |} ] |} []
    eq_refl _))).
  apply List.Forall_cons; [|apply List.Forall_nil].
  cbn. intros [H|[H|[H|[H|[H|[]]]]]]; discriminate.
Defined.

(** ** The detection loop *)

Lemma Rneqb_refl (a : R) : Rneqb a a = false.
Proof. unfold Rneqb. now destruct (Req_dec_T a a). Qed.

Lemma Rneqb_true (a b : R) : Rneqb a b = true <-> a <> b.
Proof. unfold Rneqb. destruct (Req_dec_T a b); split; intros; easy. Qed.

Lemma predictWebcam_cases (landmarkers : bool) (video : option (Video R))
    (detection : option (HandLandmarkerResult R * FaceLandmarkerResult R))
    (last : R) :
  let t := predictWebcam landmarkers video detection last in
  (~ freshFrame landmarkers video last
   /\ published t = None /\ lastVideoTime t = last
   /\ (rescheduled t = true <-> landmarkers = true /\ video <> None))
  \/ (exists v : Video R,
        freshFrame landmarkers video last
        /\ video = Some v /\ lastVideoTime t = currentTime v
        /\ rescheduled t = true
        /\ published t
           = match detection with
             | Some (handResults, faceResults) =>
                 match handLogic handResults with
                 | Some newHands =>
                     Some {| hands := newHands; face := faceLogic faceResults |}
                 | None => None
                 end
             | None => None
             end).
Proof.
  cbv zeta. unfold predictWebcam, freshFrame. at_R. cbn [nstrict_neq RTests].
  destruct landmarkers.
  2:{ left. split; [intros [Hlm _]; discriminate|].
      split; [reflexivity|]. split; [reflexivity|].
      split; [discriminate | intros [Hlm _]; discriminate]. }
  destruct video as [v|].
  2:{ left. split; [intros [_ (v & Hv & _)]; discriminate|].
      split; [reflexivity|]. split; [reflexivity|].
      split; [discriminate | intros [_ Hv]; congruence]. }
  destruct (Rgtb (videoWidth v) 0) eqn:Ew; cbn [andb].
  2:{ apply Rgtb_false in Ew. left.
      split; [intros [_ (v' & Hv & Hw & _)]; injection Hv as <-; lra|].
      split; [reflexivity|]. split; [reflexivity|].
      split; [intros _; split; [reflexivity | discriminate] | reflexivity]. }
  destruct (Rgtb (videoHeight v) 0) eqn:Eh.
  2:{ apply Rgtb_false in Eh. left.
      split; [intros [_ (v' & Hv & _ & Hh & _)]; injection Hv as <-; lra|].
      split; [reflexivity|]. split; [reflexivity|].
      split; [intros _; split; [reflexivity | discriminate] | reflexivity]. }
  apply Rgtb_true in Ew, Eh.
  destruct (Rneqb (currentTime v) last) eqn:Et.
  2:{ left.
      split.
      { intros [_ (v' & Hv & _ & _ & Hne)]. injection Hv as <-.
        apply Rneqb_true in Hne. congruence. }
      split; [reflexivity|]. split; [reflexivity|].
      split; [intros _; split; [reflexivity | discriminate] | reflexivity]. }
  apply Rneqb_true in Et. right. exists v.
  split; [split; [reflexivity | exists v; easy]|].
  split; [reflexivity|].
  destruct detection as [[hr fr]|]; [destruct (handLogic hr)|]; easy.
Qed.

(** X13. A video frame is processed at most once: calling [predictWebcam]
    again on the same video, whatever the detectors would return, publishes
    nothing and leaves [lastVideoTimeRef] as the first call left it.  The
    next animation frame is requested exactly when the models and the video
    element exist.  Data is published only for a video with positive
    dimensions whose time differs from the last processed one, and that time
    is recorded; and when the hand logic throws on such a frame, nothing is
    published but the time is recorded all the same, so the frame is not
    tried again. *)
Theorem frame_processed_once :
  forall (landmarkers : bool) (video : option (Video R))
         (detection detection' :
            option (HandLandmarkerResult R * FaceLandmarkerResult R))
         (last : R),
    let t1 := predictWebcam landmarkers video detection last in
    let t2 := predictWebcam landmarkers video detection' (lastVideoTime t1) in
    published t2 = None
    /\ lastVideoTime t2 = lastVideoTime t1
    /\ (rescheduled t1 = true <-> landmarkers = true /\ video <> None)
    /\ (forall data : InputData R,
          published t1 = Some data ->
          exists v : Video R,
            video = Some v /\ lastVideoTime t1 = currentTime v
            /\ currentTime v <> last
            /\ 0 < videoWidth v /\ 0 < videoHeight v)
    /\ (forall (v : Video R) (handResults : HandLandmarkerResult R)
               (faceResults : FaceLandmarkerResult R),
          landmarkers = true -> video = Some v ->
          0 < videoWidth v -> 0 < videoHeight v -> currentTime v <> last ->
          detection = Some (handResults, faceResults) ->
          handLogic handResults = None ->
          published t1 = None /\ lastVideoTime t1 = currentTime v).
Proof.
  intros landmarkers video detection detection' last. cbv zeta.
  pose proof (predictWebcam_cases landmarkers video detection last) as H1.
  cbv zeta in H1.
  set (t1 := predictWebcam landmarkers video detection last) in *.
  pose proof (predictWebcam_cases landmarkers video detection' (lastVideoTime t1))
    as H2.
  cbv zeta in H2.
  set (t2 := predictWebcam landmarkers video detection' (lastVideoTime t1)) in *.
  destruct H1 as [(Hnf & Hp1 & Hl1 & Hr1) | (v & Hf & Hv & Hl1 & Hr1 & Hp1)].
  - assert (Hsecond : published t2 = None /\ lastVideoTime t2 = lastVideoTime t1).
    { destruct H2 as [(_ & Hp2 & Hl2 & _) | (v2 & Hf2 & _)]; [easy|].
      exfalso. apply Hnf. now rewrite <- Hl1. }
    destruct Hsecond as [Hp2 Hl2].
    split; [exact Hp2|]. split; [exact Hl2|]. split; [exact Hr1|]. split.
    + intros data Hd. rewrite Hp1 in Hd. discriminate.
    + intros v hr fr Hlm Hv Hw Hh Ht _ _. exfalso. apply Hnf.
      split; [exact Hlm|]. exists v. easy.
  - assert (Hsecond : published t2 = None /\ lastVideoTime t2 = lastVideoTime t1).
    { destruct H2 as [(_ & Hp2 & Hl2 & _) | (v2 & Hf2 & _)]; [easy|].
      exfalso. destruct Hf2 as [_ (v3 & Hv3 & _ & _ & Hne)].
      rewrite Hv in Hv3. injection Hv3 as <-. now rewrite Hl1 in Hne. }
    destruct Hsecond as [Hp2 Hl2].
    destruct Hf as [Hlm (v' & Hv' & Hw & Hh & Hne)].
    rewrite Hv in Hv'. injection Hv' as <-.
    split; [exact Hp2|]. split; [exact Hl2|]. split.
    { split; [intros _; split; [exact Hlm | congruence] | intros _; exact Hr1]. }
    split.
    + intros data _. exists v. easy.
    + intros v0 hr fr _ Hv0 _ _ _ Hd Hnone.
      rewrite Hv in Hv0. injection Hv0 as <-.
      rewrite Hp1, Hd, Hnone. easy.
Qed.


(** ** More on the palette blender *)

Lemma for_loop_invariant {S : Type} (P : S -> Prop) (body : nat -> S -> S) :
  (forall i s, P s -> P (body i s)) ->
  forall (n : nat) (s : S), P s -> P (for_loop n body s).
Proof.
  intros Hbody n s. unfold for_loop. generalize (seq 0 n) as l. intros l.
  revert s. induction l as [|i l IH]; intros s Hs; [exact Hs|].
  cbn. apply IH, Hbody, Hs.
Qed.

(** X14. The colour loop never changes the number of palette slots,
    whatever the instance count and the target palette, and so neither does
    a frame. *)
Theorem palette_keeps_slots :
  forall (A : Type) (N : Number A) (parseColor : string -> Color A),
    (forall (count : nat) (target : list string) (current : list (Color A)),
       length (ColorSlices.blendLoop parseColor count target current)
       = length current)
    /\ (forall (input : InputData A) (audio : AudioData A)
          (audioMode : AudioMode) (st : ColorSlices.State A),
          length (ColorSlices.currentPaletteRef
                    (ColorSlices.useFrame parseColor input audio audioMode st))
          = length (ColorSlices.currentPaletteRef st)).
Proof.
  intros A N parseColor.
  assert (Hloop : forall (count : nat) (target : list string)
                         (current : list (Color A)),
             length (ColorSlices.blendLoop parseColor count target current)
             = length current).
  { intros count target current. unfold ColorSlices.blendLoop.
    apply (for_loop_invariant (fun s => length s = length current)); [|reflexivity].
    intros i s Hs. unfold ColorSlices.blendInstance.
    destruct (s !! (i mod 5)%nat); [|exact Hs].
    destruct (target !! (i mod 5)%nat); [|exact Hs].
    now rewrite length_insert. }
  split; [exact Hloop|].
  intros input audio audioMode st. unfold ColorSlices.useFrame.
  cbn [ColorSlices.currentPaletteRef].
  destruct (ColorSlices.meshRef st); [apply Hloop | reflexivity].
Qed.

Lemma Color_lerp_same (c : Color R) (alpha : R) : Color_lerp c c alpha = c.
Proof. destruct c as [cr cg cb]. unfold Color_lerp. at_R. cbn. f_equal; ring. Qed.

Lemma blendLoop_at_target (parseColor : string -> Color R) (count : nat)
    (target : list string) :
  ColorSlices.blendLoop parseColor count target (map parseColor target)
  = map parseColor target.
Proof.
  unfold ColorSlices.blendLoop.
  apply (for_loop_invariant (fun s => s = map parseColor target)); [|reflexivity].
  intros i s ->. unfold ColorSlices.blendInstance.
  generalize (i mod 5)%nat as j. intros j.
  change (map parseColor target) with (parseColor <$> target).
  rewrite list_lookup_fmap.
  destruct (target !! j) as [hex|] eqn:E; [|reflexivity]. cbn.
  rewrite Color_lerp_same. apply list_insert_id.
  now rewrite list_lookup_fmap, E.
Qed.

(** X15. Blending is idempotent on a palette that has reached its target:
    when the current colours are the parsed target colours, the colour loop
    leaves them as they are, for every instance count, and so does a
    frame. *)
Theorem palette_blend_idempotent :
  forall parseColor : string -> Color R,
    (forall (count : nat) (target : list string),
       ColorSlices.blendLoop parseColor count target (map parseColor target)
       = map parseColor target)
    /\ (forall (input : InputData R) (audio : AudioData R)
          (audioMode : AudioMode) (st : ColorSlices.State R),
          ColorSlices.currentPaletteRef st
          = map parseColor (ColorSlices.nextPalette (face input)) ->
          ColorSlices.currentPaletteRef
            (ColorSlices.useFrame parseColor input audio audioMode st)
          = ColorSlices.currentPaletteRef st).
Proof.
  intros parseColor. split; [apply blendLoop_at_target|].
  intros input audio audioMode st Hcur. unfold ColorSlices.useFrame.
  cbn [ColorSlices.currentPaletteRef].
  destruct (ColorSlices.meshRef st); [|reflexivity].
  rewrite Hcur. apply blendLoop_at_target.
Qed.

(** A geometric sequence around [T] with ratio of magnitude below 1 tends
    to [T]. *)
Lemma geometric_limit (q x T : R) :
  Rabs q < 1 -> converges_to (fun n => T + (x - T) * q ^ n) T.
Proof.
  intros Hq eps Heps.
  assert (Hy : 0 < eps / (Rabs (x - T) + 1))
    by (apply Rdiv_lt_0_compat; [lra | pose proof (Rabs_pos (x - T)); lra]).
  destruct (pow_lt_1_zero q Hq _ Hy) as [N HN].
  exists N. intros n Hn. specialize (HN n Hn).
  replace (T + (x - T) * q ^ n - T) with ((x - T) * q ^ n) by ring.
  rewrite Rabs_mult.
  pose proof (Rabs_pos (x - T)) as Hx. pose proof (Rabs_pos (q ^ n)) as Hp.
  assert (H1 : Rabs (x - T) * Rabs (q ^ n)
               <= Rabs (x - T) * (eps / (Rabs (x - T) + 1)))
    by (apply Rmult_le_compat_l; lra).
  assert (E : eps / (Rabs (x - T) + 1) * (Rabs (x - T) + 1) = eps)
    by (field; lra).
  lra.
Qed.

Lemma converges_every (f : nat -> R) (T : R) (k : nat) :
  (0 < k)%nat -> converges_to f T -> converges_to (fun n => f (k * n)%nat) T.
Proof.
  intros Hk Hf eps Heps. destruct (Hf eps Heps) as [N HN].
  exists N. intros n Hn. apply HN. nia.
Qed.

Lemma color_lerp_iter (target c : Color R) (alpha : R) (n : nat) :
  r (Nat.iter n (fun c => Color_lerp c target alpha) c)
    = r target + (r c - r target) * (1 - alpha) ^ n
  /\ g (Nat.iter n (fun c => Color_lerp c target alpha) c)
     = g target + (g c - g target) * (1 - alpha) ^ n
  /\ b (Nat.iter n (fun c => Color_lerp c target alpha) c)
     = b target + (b c - b target) * (1 - alpha) ^ n.
Proof.
  induction n as [|n (IHr & IHg & IHb)].
  - cbn. repeat split; ring.
  - rewrite Nat.iter_succ.
    set (cn := Nat.iter n (fun c => Color_lerp c target alpha) c) in *.
    unfold Color_lerp. at_R. cbn [r g b]. rewrite IHr, IHg, IHb. cbn [pow].
    repeat split; ring.
Qed.

Lemma palette_frames (parseColor : string -> Color R) (input : InputData R)
    (audio : AudioData R) (audioMode : AudioMode)
    (h0 h1 h2 h3 h4 : string) (c0 c1 c2 c3 c4 : Color R) :
  ColorSlices.nextPalette (face input) = [h0; h1; h2; h3; h4] ->
  forall (n : nat) (st : ColorSlices.State R),
    ColorSlices.meshRef st = true ->
    ColorSlices.currentPaletteRef st = [c0; c1; c2; c3; c4] ->
    let st' := Nat.iter n (ColorSlices.useFrame parseColor input audio audioMode) st in
    ColorSlices.meshRef st' = true
    /\ ColorSlices.currentPaletteRef st'
       = [Nat.iter (12 * n) (lerpTowards parseColor h0) c0;
          Nat.iter (12 * n) (lerpTowards parseColor h1) c1;
          Nat.iter (12 * n) (lerpTowards parseColor h2) c2;
          Nat.iter (12 * n) (lerpTowards parseColor h3) c3;
          Nat.iter (12 * n) (lerpTowards parseColor h4) c4].
Proof.
  intros Hnext n st Hmesh Hcur. cbv zeta.
  induction n as [|n [IHm IHc]].
  - cbn. easy.
  - rewrite Nat.iter_succ.
    set (stn := Nat.iter n (ColorSlices.useFrame parseColor input audio audioMode) st) in *.
    unfold ColorSlices.useFrame.
    cbn [ColorSlices.meshRef ColorSlices.currentPaletteRef].
    split; [exact IHm|]. rewrite IHm, IHc, Hnext.
    change CONFIG_sliceCount with (5 * 12)%nat. rewrite blendLoop_rounds.
    replace (12 * S n)%nat with (12 + 12 * n)%nat by lia.
    now rewrite !Nat.iter_add.
Qed.

(** X16. Under a face that stays the same, the mounted component's palette
    tends to the target palette: after [n] frames every slot has been
    lerped [12 * n] times towards its target colour, and each of its
    channels tends to the target's channel. *)
Theorem palette_converges (parseColor : string -> Color R)
    (input : InputData R) (audio : AudioData R) (audioMode : AudioMode)
    (st : ColorSlices.State R) (c0 c1 c2 c3 c4 : Color R) :
  ColorSlices.meshRef st = true ->
  ColorSlices.currentPaletteRef st = [c0; c1; c2; c3; c4] ->
  exists h0 h1 h2 h3 h4 : string,
    ColorSlices.nextPalette (face input) = [h0; h1; h2; h3; h4]
    /\ (forall n : nat,
          ColorSlices.currentPaletteRef
            (Nat.iter n (ColorSlices.useFrame parseColor input audio audioMode) st)
          = [Nat.iter (12 * n) (lerpTowards parseColor h0) c0;
             Nat.iter (12 * n) (lerpTowards parseColor h1) c1;
             Nat.iter (12 * n) (lerpTowards parseColor h2) c2;
             Nat.iter (12 * n) (lerpTowards parseColor h3) c3;
             Nat.iter (12 * n) (lerpTowards parseColor h4) c4])
    /\ (forall (hex : string) (c : Color R),
          converges_to
            (fun n => r (Nat.iter (12 * n) (lerpTowards parseColor hex) c))
            (r (parseColor hex))
          /\ converges_to
               (fun n => g (Nat.iter (12 * n) (lerpTowards parseColor hex) c))
               (g (parseColor hex))
          /\ converges_to
               (fun n => b (Nat.iter (12 * n) (lerpTowards parseColor hex) c))
               (b (parseColor hex))).
Proof.
  intros Hmesh Hcur.
  assert (Hpal : exists h0 h1 h2 h3 h4 : string,
             ColorSlices.nextPalette (face input) = [h0; h1; h2; h3; h4]).
  { unfold ColorSlices.nextPalette.
    destruct (fst (ColorSlices.determineTargetPalette (face input)));
      cbn [PALETTES]; do 5 eexists; reflexivity. }
  destruct Hpal as (h0 & h1 & h2 & h3 & h4 & Hnext).
  exists h0, h1, h2, h3, h4. split; [exact Hnext|]. split.
  - intros n.
    exact (proj2 (palette_frames parseColor input audio audioMode
                    h0 h1 h2 h3 h4 c0 c1 c2 c3 c4 Hnext n st Hmesh Hcur)).
  - intros hex c.
    assert (Hq : Rabs (85 / 100) < 1) by (rewrite Rabs_pos_eq; lra).
    repeat split.
    + apply (converges_every
               (fun n => r (Nat.iter n (lerpTowards parseColor hex) c))
               _ 12 ltac:(lia)).
      intros eps Heps.
      destruct (geometric_limit (85 / 100) (r c) (r (parseColor hex)) Hq eps Heps)
        as [N HN].
      exists N. intros n Hn.
      rewrite (proj1 (lerp_iter_channels parseColor hex c n)). now apply HN.
    + apply (converges_every
               (fun n => g (Nat.iter n (lerpTowards parseColor hex) c))
               _ 12 ltac:(lia)).
      intros eps Heps.
      destruct (geometric_limit (85 / 100) (g c) (g (parseColor hex)) Hq eps Heps)
        as [N HN].
      exists N. intros n Hn.
      rewrite (proj1 (proj2 (lerp_iter_channels parseColor hex c n))). now apply HN.
    + apply (converges_every
               (fun n => b (Nat.iter n (lerpTowards parseColor hex) c))
               _ 12 ltac:(lia)).
      intros eps Heps.
      destruct (geometric_limit (85 / 100) (b c) (b (parseColor hex)) Hq eps Heps)
        as [N HN].
      exists N. intros n Hn.
      rewrite (proj2 (proj2 (lerp_iter_channels parseColor hex c n))). now apply HN.
Qed.

(** From the initial state of the mounted component. *)
Lemma palette_converges_witness :
  let white := fun _ : string => {| r := 1; g := 1; b := 1 |} in
  exists h0 h1 h2 h3 h4 : string,
    ColorSlices.nextPalette (face (@initialInputData R _)) = [h0; h1; h2; h3; h4]
    /\ converges_to
         (fun n => r (Nat.iter (12 * n) (lerpTowards white h0)
                                {| r := 0; g := 0; b := 0 |}))
         (r (white h0)).
Proof.
  cbv zeta.
  destruct (palette_converges (fun _ => {| r := 1; g := 1; b := 1 |})
              initialInputData {| low := 0; high := 0; vol := 0 |} OFF
              (ColorSlices.initialState (fun _ => {| r := 1; g := 1; b := 1 |}) true)
              {| r := 1; g := 1; b := 1 |} {| r := 1; g := 1; b := 1 |}
              {| r := 1; g := 1; b := 1 |} {| r := 1; g := 1; b := 1 |}
              {| r := 1; g := 1; b := 1 |} eq_refl eq_refl)
    as (h0 & h1 & h2 & h3 & h4 & Hnext & _ & Hconv).
  exists h0, h1, h2, h3, h4. split; [exact Hnext|].
  exact (proj1 (Hconv h0 {| r := 0; g := 0; b := 0 |})).
Defined.


(** ** More on the audio features *)

Lemma bin_range (dataArray : list Z) (i : nat) :
  bytes dataArray -> 0 <= IZR (default 0%Z (dataArray !! i)) <= 255.
Proof.
  intros Hb. destruct (dataArray !! i) as [v|] eqn:E; cbn; [|lra].
  unfold bytes in Hb. rewrite Forall_lookup in Hb. specialize (Hb i v E).
  split; [apply (IZR_le 0) | apply (IZR_le v 255)]; lia.
Qed.

Lemma sum_fold_range (dataArray : list Z) (l : list nat) :
  bytes dataArray ->
  forall acc : R,
    acc <= fold_left (fun sum i => sum + IZR (default 0%Z (dataArray !! i))) l acc
        <= acc + 255 * INR (length l).
Proof.
  intros Hb. induction l as [|i l IH]; intros acc.
  - cbn. lra.
  - cbn [fold_left]. specialize (IH (acc + IZR (default 0%Z (dataArray !! i)))).
    pose proof (bin_range dataArray i Hb) as Hi.
    change (length (i :: l)) with (S (length l)). rewrite S_INR. lra.
Qed.

Lemma sumBins_range (dataArray : list Z) (start stop : nat) :
  bytes dataArray ->
  0 <= AudioManager.sumBins dataArray start stop <= 255 * INR (stop - start).
Proof.
  intros Hb. unfold AudioManager.sumBins. at_R.
  pose proof (sum_fold_range dataArray (seq start (stop - start)) Hb 0) as H.
  rewrite length_seq in H. lra.
Qed.

Lemma lerp_in_unit (a b t : R) :
  0 <= a <= 1 -> 0 <= b <= 1 -> 0 <= t <= 1 ->
  0 <= AudioManager.lerp a b t <= 1.
Proof.
  intros Ha Hb Ht. unfold AudioManager.lerp. at_R.
  replace (a + (b - a) * t) with (a * (1 - t) + b * t) by ring.
  assert (0 <= a * (1 - t) <= 1 * (1 - t))
    by (split; [apply Rmult_le_pos | apply Rmult_le_compat_r]; lra).
  assert (0 <= b * t <= 1 * t)
    by (split; [apply Rmult_le_pos | apply Rmult_le_compat_r]; lra).
  lra.
Qed.

Lemma average_in_unit (dataArray : list Z) (start stop : nat) (n : Z) :
  bytes dataArray -> Z.of_nat (stop - start) = n -> (0 < n)%Z ->
  0 <= AudioManager.sumBins dataArray start stop / IZR n / 255 <= 1.
Proof.
  intros Hb Hn Hpos.
  pose proof (sumBins_range dataArray start stop Hb) as Hs.
  rewrite INR_IZR_INZ, Hn in Hs.
  assert (Hp : 0 < IZR n) by (apply (IZR_lt 0); exact Hpos).
  set (s := AudioManager.sumBins dataArray start stop) in *.
  assert (Hden : 0 < 255 * IZR n) by lra.
  assert (E : s / IZR n / 255 = s * / (255 * IZR n)) by (field; lra).
  rewrite E. split.
  - apply Rmult_le_pos; [lra|]. left. now apply Rinv_0_lt_compat.
  - apply (Rmult_le_reg_r (255 * IZR n)); [exact Hden|].
    rewrite Rmult_assoc, Rinv_l by lra. lra.
Qed.

(** X17. The features stay in [0, 1]: from features in [0, 1] and a buffer
    of 256 bytes, the per-frame callback gives features in [0, 1] in every
    mode, and so do the mode-switch effect and the analyser set-up. *)
Theorem features_stay_in_unit (audioMode : AudioMode) (dataArray : list Z)
    (st : AudioManager.State R) :
  length dataArray = 256%nat ->
  bytes dataArray ->
  inUnit (audioDataRef st) ->
  inUnit (audioDataRef (AudioManager.useFrame audioMode dataArray st))
  /\ inUnit (audioDataRef (AudioManager.setupAudio audioMode st))
  /\ inUnit (audioDataRef (AudioManager.initAnalyser st)).
Proof.
  intros Hlen Hb (Hl & Hh & Hv).
  assert (H3 : 0 <= 3 / 10 <= 1) by lra. assert (H1 : 0 <= 1 / 10 <= 1) by lra.
  assert (H0 : 0 <= 0 <= 1) by lra.
  split; [|split].
  - unfold AudioManager.useFrame.
    destruct (listener st); cbn [negb]; [|easy].
    destruct (analyserRef st && _ && dataArrayRef st);
      cbn [AudioManager.withData audioDataRef]; unfold inUnit; cbn [low high vol].
    + rewrite Hlen. unfold dec. cbn [of_Z RNumber ndiv].
      pose proof (average_in_unit dataArray 0 4 4 Hb eq_refl eq_refl) as Ha1.
      pose proof (average_in_unit dataArray 20 100 80 Hb eq_refl eq_refl) as Ha2.
      pose proof (average_in_unit dataArray 0 256 256 Hb eq_refl eq_refl) as Ha3.
      change (Z.of_nat 256) with 256%Z.
      split; [|split]; apply lerp_in_unit; assumption.
    + unfold dec. cbn [of_Z RNumber ndiv].
      split; [|split]; apply lerp_in_unit; assumption.
  - unfold AudioManager.setupAudio.
    destruct (listener st); [|easy].
    destruct audioMode; try easy; unfold inUnit; cbn; lra.
  - unfold AudioManager.initAnalyser. destruct (listener st); easy.
Qed.


Lemma features_stay_in_unit_witness :
  let st : AudioManager.State R :=
    {| audioDataRef := {| low := 0; high := 0; vol := 0 |};
       listener := true; analyserRef := true; dataArrayRef := true |} in
  inUnit (audioDataRef (AudioManager.useFrame MIC (replicate 256 255%Z) st)).
Proof.
  refine (proj1 (features_stay_in_unit MIC (replicate 256 255%Z)
    {| audioDataRef := {| low := 0; high := 0; vol := 0 |};
       listener := true; analyserRef := true; dataArrayRef := true |} _ _ _)).
  - reflexivity.
  - apply Forall_forall. intros v Hv. apply elem_of_replicate in Hv.
    destruct Hv as [-> _]. lia.
  - unfold inUnit. cbn. lra.
Defined.





(** ** More on the lighting reactor *)

Lemma color_lerp_converges (target c : Color R) (alpha : R) :
  Rabs (1 - alpha) < 1 ->
  colorConverges (fun n => Nat.iter n (fun c => Color_lerp c target alpha) c) target.
Proof.
  intros Hq. unfold colorConverges. repeat split; intros eps Heps.
  - destruct (geometric_limit (1 - alpha) (r c) (r target) Hq eps Heps) as [N HN].
    exists N. intros n Hn.
    rewrite (proj1 (color_lerp_iter target c alpha n)). now apply HN.
  - destruct (geometric_limit (1 - alpha) (g c) (g target) Hq eps Heps) as [N HN].
    exists N. intros n Hn.
    rewrite (proj1 (proj2 (color_lerp_iter target c alpha n))). now apply HN.
  - destruct (geometric_limit (1 - alpha) (b c) (b target) Hq eps Heps) as [N HN].
    exists N. intros n Hn.
    rewrite (proj2 (proj2 (color_lerp_iter target c alpha n))). now apply HN.
Qed.

Lemma lighting_frames (parseColor : string -> Color R) (face : FaceData R)
    (s1 s2 : Experience.SpotLight R) (a : R) (n : nat) :
  let t := Experience.determineLighting face in
  Nat.iter n (Experience.useFrame parseColor face)
    {| Experience.spot1Ref := Some s1; Experience.spot2Ref := Some s2;
       Experience.ambientRef := Some a |}
  = {| Experience.spot1Ref :=
         Some {| Experience.color :=
                   Nat.iter n (fun c => Color_lerp c (parseColor (Experience.color1 t))
                                                   (5 / 100))
                            (Experience.color s1);
                 Experience.intensity :=
                   Experience.targetIntensity t
                   + (Experience.intensity s1 - Experience.targetIntensity t)
                     * (95 / 100) ^ n |};
       Experience.spot2Ref :=
         Some {| Experience.color :=
                   Nat.iter n (fun c => Color_lerp c (parseColor (Experience.color2 t))
                                                   (5 / 100))
                            (Experience.color s2);
                 Experience.intensity :=
                   Experience.targetIntensity t
                   + (Experience.intensity s2 - Experience.targetIntensity t)
                     * (95 / 100) ^ n |};
       Experience.ambientRef :=
         Some (Experience.targetAmbient t
               + (a - Experience.targetAmbient t) * (95 / 100) ^ n) |}.
Proof.
  cbv zeta. induction n as [|n IH].
  - cbn [Nat.iter nat_rect pow]. destruct s1 as [c1 i1], s2 as [c2 i2].
    cbn [Experience.color Experience.intensity].
    f_equal; [f_equal; f_equal; ring | f_equal; f_equal; ring | f_equal; ring].
  - rewrite Nat.iter_succ, IH. clear IH.
    unfold Experience.useFrame, Experience.lerpSpot, MathUtils_lerp,
      Experience.lerpSpeed.
    at_R.
    cbn [Experience.spot1Ref Experience.spot2Ref Experience.ambientRef
         Experience.color Experience.intensity fmap option_fmap option_map pow].
    rewrite !Nat.iter_succ.
    f_equal; [f_equal; f_equal; field | f_equal; f_equal; field | f_equal; field].
Qed.

(** X19. Under a face that stays the same, mounted lights settle on the
    targets of its mood: each frame shrinks the distance of the two spot
    intensities and of the ambient intensity to their targets by the factor
    0.95, without overshoot, the intensities tend to the targets, and the
    spot colours tend to the two target colours. *)
Theorem lights_converge :
  forall (parseColor : string -> Color R) (face : FaceData R)
         (s1 s2 : Experience.SpotLight R) (a : R),
    let t := Experience.determineLighting face in
    let frames := fun n =>
      Nat.iter n (Experience.useFrame parseColor face)
        {| Experience.spot1Ref := Some s1; Experience.spot2Ref := Some s2;
           Experience.ambientRef := Some a |} in
    let intensity1 := fun n =>
      from_option Experience.intensity 0 (Experience.spot1Ref (frames n)) in
    let intensity2 := fun n =>
      from_option Experience.intensity 0 (Experience.spot2Ref (frames n)) in
    let ambient := fun n => default 0 (Experience.ambientRef (frames n)) in
    (forall n : nat,
       intensity1 (S n) - Experience.targetIntensity t
         = 95 / 100 * (intensity1 n - Experience.targetIntensity t)
       /\ intensity2 (S n) - Experience.targetIntensity t
          = 95 / 100 * (intensity2 n - Experience.targetIntensity t)
       /\ ambient (S n) - Experience.targetAmbient t
          = 95 / 100 * (ambient n - Experience.targetAmbient t))
    /\ converges_to intensity1 (Experience.targetIntensity t)
    /\ converges_to intensity2 (Experience.targetIntensity t)
    /\ converges_to ambient (Experience.targetAmbient t)
    /\ colorConverges
         (fun n => from_option Experience.color (parseColor (Experience.color1 t))
                               (Experience.spot1Ref (frames n)))
         (parseColor (Experience.color1 t))
    /\ colorConverges
         (fun n => from_option Experience.color (parseColor (Experience.color2 t))
                               (Experience.spot2Ref (frames n)))
         (parseColor (Experience.color2 t)).
Proof.
  intros parseColor face s1 s2 a. cbv zeta.
  assert (Hq : Rabs (95 / 100) < 1) by (rewrite Rabs_pos_eq; lra).
  assert (Hq' : Rabs (1 - 5 / 100) < 1) by (rewrite Rabs_pos_eq; lra).
  split; [|split; [|split; [|split; [|split]]]].
  - intros n. rewrite !lighting_frames. cbv zeta.
    cbn [Experience.spot1Ref Experience.spot2Ref Experience.ambientRef
         from_option default Experience.intensity pow Datatypes.id].
    repeat split; field.
  - intros eps Heps.
    destruct (geometric_limit (95 / 100) (Experience.intensity s1)
                (Experience.targetIntensity (Experience.determineLighting face))
                Hq eps Heps) as [N HN].
    exists N. intros n Hn. rewrite lighting_frames. now apply HN.
  - intros eps Heps.
    destruct (geometric_limit (95 / 100) (Experience.intensity s2)
                (Experience.targetIntensity (Experience.determineLighting face))
                Hq eps Heps) as [N HN].
    exists N. intros n Hn. rewrite lighting_frames. now apply HN.
  - intros eps Heps.
    destruct (geometric_limit (95 / 100) a
                (Experience.targetAmbient (Experience.determineLighting face))
                Hq eps Heps) as [N HN].
    exists N. intros n Hn. rewrite lighting_frames. now apply HN.
  - pose proof (color_lerp_converges
                  (parseColor (Experience.color1 (Experience.determineLighting face)))
                  (Experience.color s1) (5 / 100) Hq') as (Hr & Hg & Hb).
    unfold colorConverges.
    repeat split; intros eps Heps;
      [destruct (Hr eps Heps) as [N HN] | destruct (Hg eps Heps) as [N HN]
       | destruct (Hb eps Heps) as [N HN]];
      exists N; intros n Hn; rewrite lighting_frames; now apply HN.
  - pose proof (color_lerp_converges
                  (parseColor (Experience.color2 (Experience.determineLighting face)))
                  (Experience.color s2) (5 / 100) Hq') as (Hr & Hg & Hb).
    unfold colorConverges.
    repeat split; intros eps Heps;
      [destruct (Hr eps Heps) as [N HN] | destruct (Hg eps Heps) as [N HN]
       | destruct (Hb eps Heps) as [N HN]];
      exists N; intros n Hn; rewrite lighting_frames; now apply HN.
Qed.


(** ** The hand cursors *)

(** X20. The feedback of a cursor.  For a present hand the mounted cursor
    is visible, its scale is [0.2 + pinch * 0.1], its light intensity is
    [2 - pinch], and the sphere and the light get the same colour, the base
    colour moved towards white by [1 - pinch]: the base colour at pinch 1,
    white at pinch 0.  In real arithmetic, with pinch in [0, 1], the scale is
    in [0.2, 0.3] and the intensity in [1, 2].  On doubles the scale at pinch
    0 is the double 0.2, but at pinch 1 (every open hand) it evaluates to
    0.30000000000000004, above the double 0.3: there the upper bound of the
    scale holds up to one rounding only.  For an absent hand the cursor is
    hidden and its light is off, position, scale and colours staying as they
    were; an unmounted cursor does not change. *)
Theorem cursor_feedback :
  (forall (parseColor : string -> Color R) (handKey : Cursor.HandKey)
          (color : string) (viewport : Cursor.Viewport R)
          (hands : TwoHandsData R) (st : Cursor.CursorState R),
     0 <= pinch (Cursor.handOf handKey hands) <= 1 ->
     let hand := Cursor.handOf handKey hands in
     let st' := Cursor.BoundCursor_useFrame parseColor true handKey color
                  viewport hands st in
     let base := parseColor color in
     let white := parseColor "#ffffff"%string in
     (present hand = true ->
        Cursor.visible st' = true
        /\ Cursor.scale st' = 2 / 10 + pinch hand * (1 / 10)
        /\ 2 / 10 <= Cursor.scale st' <= 3 / 10
        /\ Cursor.intensity st' = 2 - pinch hand
        /\ 1 <= Cursor.intensity st' <= 2
        /\ Cursor.meshColor st' = Cursor.lightColor st'
        /\ r (Cursor.meshColor st') = r base + (r white - r base) * (1 - pinch hand)
        /\ g (Cursor.meshColor st') = g base + (g white - g base) * (1 - pinch hand)
        /\ b (Cursor.meshColor st') = b base + (b white - b base) * (1 - pinch hand))
     /\ (present hand = false ->
           Cursor.visible st' = false /\ Cursor.intensity st' = 0
           /\ Cursor.position st' = Cursor.position st
           /\ Cursor.scale st' = Cursor.scale st
           /\ Cursor.meshColor st' = Cursor.meshColor st
           /\ Cursor.lightColor st' = Cursor.lightColor st)
     /\ Cursor.BoundCursor_useFrame parseColor false handKey color viewport
          hands st
        = st)
  /\ (let black := {| r := 0; g := 0; b := 0 |}%float in
      let st : Cursor.CursorState float :=
        {| Cursor.position :=
             {| Cursor.vx := 0; Cursor.vy := 0; Cursor.vz := 0 |}%float;
           Cursor.scale := 1%float;
           Cursor.meshColor := black; Cursor.lightColor := black;
           Cursor.visible := false; Cursor.intensity := 0%float |} in
      let scaleAt := fun p : float =>
        Cursor.scale
          (Cursor.BoundCursor_useFrame (fun _ => black) true Cursor.KeyLeft
             "#00ffff"%string
             {| Cursor.width := 3%float; Cursor.height := 3%float |}
             {| left := {| present := true; x := 0%float; y := 0%float;
                           pinch := p |};
                right := absentHand |} st) in
      scaleAt 0%float = dec 2 10
      /\ scaleAt 1%float = 0x1.3333333333334p-2%float
      /\ PrimFloat.ltb (dec 3 10) (scaleAt 1%float) = true).
Proof.
  split.
  - intros parseColor handKey color viewport hands st Hp. cbv zeta.
    unfold Cursor.BoundCursor_useFrame. cbn [negb].
    split; [|split; [|reflexivity]].
    + intros ->. unfold Color_lerp. at_R.
      cbn [Cursor.visible Cursor.scale Cursor.intensity Cursor.meshColor
           Cursor.lightColor r g b].
      repeat split; lra.
    + intros ->. cbn. easy.
  - vm_compute. repeat split; reflexivity.
Qed.

Lemma cursor_feedback_witness :
  let hands : TwoHandsData R :=
    {| left := {| present := true; x := 0; y := 0; pinch := 1 / 2 |};
       right := absentHand |} in
  let st : Cursor.CursorState R :=
    {| Cursor.position := {| Cursor.vx := 0; Cursor.vy := 0; Cursor.vz := 0 |};
       Cursor.scale := 1;
       Cursor.meshColor := {| r := 1; g := 1; b := 1 |};
       Cursor.lightColor := {| r := 1; g := 1; b := 1 |};
       Cursor.visible := true; Cursor.intensity := 1 |} in
  Cursor.intensity
    (Cursor.BoundCursor_useFrame (fun _ => {| r := 1; g := 1; b := 1 |}) true
       Cursor.KeyLeft "#00ffff"%string {| Cursor.width := 3; Cursor.height := 3 |}
       hands st)
  = 2 - 1 / 2.
Proof.
  refine (proj1 (proj2 (proj2 (proj2 (proj1
    (proj1 cursor_feedback (fun _ => {| r := 1; g := 1; b := 1 |}) Cursor.KeyLeft
       "#00ffff"%string {| Cursor.width := 3; Cursor.height := 3 |}
       {| left := {| present := true; x := 0; y := 0; pinch := 1 / 2 |};
          right := absentHand |}
       {| Cursor.position := {| Cursor.vx := 0; Cursor.vy := 0; Cursor.vz := 0 |};
          Cursor.scale := 1;
          Cursor.meshColor := {| r := 1; g := 1; b := 1 |};
          Cursor.lightColor := {| r := 1; g := 1; b := 1 |};
          Cursor.visible := true; Cursor.intensity := 1 |} _) eq_refl))))).
  cbn. lra.
Defined.

(** X21. The two cursor components differ in the light only: given the same
    hand, [SingleCursor] and [BoundCursor] write the same position, scale,
    colours and visibility, and for a present hand their light intensities
    are [1 + pinch] and [2 - pinch], which add up to 3. *)
Theorem cursor_components_agree :
  forall (parseColor : string -> Color R) (mounted : bool)
         (handKey : Cursor.HandKey) (color : string)
         (viewport : Cursor.Viewport R) (hands : TwoHandsData R)
         (st : Cursor.CursorState R),
    let hand := Cursor.handOf handKey hands in
    let bound := Cursor.BoundCursor_useFrame parseColor mounted handKey color
                   viewport hands st in
    let single := Cursor.SingleCursor_useFrame parseColor mounted hand color
                    viewport st in
    Cursor.position single = Cursor.position bound
    /\ Cursor.scale single = Cursor.scale bound
    /\ Cursor.meshColor single = Cursor.meshColor bound
    /\ Cursor.lightColor single = Cursor.lightColor bound
    /\ Cursor.visible single = Cursor.visible bound
    /\ (mounted = true -> present hand = true ->
        Cursor.intensity single = 1 + pinch hand
        /\ Cursor.intensity bound = 2 - pinch hand
        /\ Cursor.intensity single + Cursor.intensity bound = 3)
    /\ (present hand = false ->
        Cursor.intensity single = Cursor.intensity bound).
Proof.
  intros parseColor mounted handKey color viewport hands st. cbv zeta.
  unfold Cursor.BoundCursor_useFrame, Cursor.SingleCursor_useFrame.
  destruct mounted; cbn [negb].
  - destruct (present (Cursor.handOf handKey hands)) eqn:E.
    + at_R. cbn. repeat split; try easy; intros; lra.
    + cbn. repeat split; easy.
  - repeat split; try easy.
Qed.

Lemma cursor_frames (parseColor : string -> Color R) (handKey : Cursor.HandKey)
    (color : string) (viewport : Cursor.Viewport R) (hands : TwoHandsData R)
    (st : Cursor.CursorState R) (n : nat) :
  present (Cursor.handOf handKey hands) = true ->
  let target := Cursor.cursorTarget viewport (Cursor.handOf handKey hands) in
  let p := Cursor.position st in
  Cursor.position
    (Nat.iter n (Cursor.BoundCursor_useFrame parseColor true handKey color
                   viewport hands) st)
  = {| Cursor.vx := Cursor.vx target
                    + (Cursor.vx p - Cursor.vx target) * (8 / 10) ^ n;
       Cursor.vy := Cursor.vy target
                    + (Cursor.vy p - Cursor.vy target) * (8 / 10) ^ n;
       Cursor.vz := Cursor.vz target
                    + (Cursor.vz p - Cursor.vz target) * (8 / 10) ^ n |}.
Proof.
  intros Hp. cbv zeta. induction n as [|n IH].
  - cbn [Nat.iter nat_rect pow]. destruct (Cursor.position st) as [px py pz].
    cbn [Cursor.vx Cursor.vy Cursor.vz]. f_equal; ring.
  - rewrite Nat.iter_succ.
    set (stn := Nat.iter n _ st) in *.
    unfold Cursor.BoundCursor_useFrame. cbn [negb]. rewrite Hp.
    cbn [Cursor.position]. rewrite IH.
    unfold Cursor.Vector3_lerp. at_R. cbn [Cursor.vx Cursor.vy Cursor.vz pow].
    f_equal; field.
Qed.

(** X22. While a present hand stays where it is, the mounted cursor closes
    in on it: its position tends to
    [(x * width / 3, y * height / 3, 6)], each frame leaving 0.8 of the
    remaining distance in every coordinate. *)
Theorem cursor_converges (parseColor : string -> Color R)
    (handKey : Cursor.HandKey) (color : string) (viewport : Cursor.Viewport R)
    (hands : TwoHandsData R) (st : Cursor.CursorState R) :
  present (Cursor.handOf handKey hands) = true ->
  let hand := Cursor.handOf handKey hands in
  let frames := fun n =>
    Cursor.position
      (Nat.iter n (Cursor.BoundCursor_useFrame parseColor true handKey color
                     viewport hands) st) in
  converges_to (fun n => Cursor.vx (frames n)) (x hand * Cursor.width viewport / 3)
  /\ converges_to (fun n => Cursor.vy (frames n))
                  (y hand * Cursor.height viewport / 3)
  /\ converges_to (fun n => Cursor.vz (frames n)) 6.
Proof.
  intros Hp. cbv zeta.
  assert (Hq : Rabs (8 / 10) < 1) by (rewrite Rabs_pos_eq; lra).
  repeat split; intros eps Heps.
  - destruct (geometric_limit (8 / 10) (Cursor.vx (Cursor.position st))
                (x (Cursor.handOf handKey hands) * Cursor.width viewport / 3)
                Hq eps Heps) as [N HN].
    exists N. intros n Hn.
    rewrite (cursor_frames parseColor handKey color viewport hands st n Hp).
    now apply HN.
  - destruct (geometric_limit (8 / 10) (Cursor.vy (Cursor.position st))
                (y (Cursor.handOf handKey hands) * Cursor.height viewport / 3)
                Hq eps Heps) as [N HN].
    exists N. intros n Hn.
    rewrite (cursor_frames parseColor handKey color viewport hands st n Hp).
    now apply HN.
  - destruct (geometric_limit (8 / 10) (Cursor.vz (Cursor.position st)) 6
                Hq eps Heps) as [N HN].
    exists N. intros n Hn.
    rewrite (cursor_frames parseColor handKey color viewport hands st n Hp).
    now apply HN.
Qed.

Lemma cursor_converges_witness :
  let hands : TwoHandsData R :=
    {| left := {| present := true; x := 1; y := 1; pinch := 1 / 2 |};
       right := absentHand |} in
  let st : Cursor.CursorState R :=
    {| Cursor.position := {| Cursor.vx := 0; Cursor.vy := 0; Cursor.vz := 0 |};
       Cursor.scale := 1;
       Cursor.meshColor := {| r := 1; g := 1; b := 1 |};
       Cursor.lightColor := {| r := 1; g := 1; b := 1 |};
       Cursor.visible := true; Cursor.intensity := 1 |} in
  converges_to
    (fun n => Cursor.vz (Cursor.position
       (Nat.iter n (Cursor.BoundCursor_useFrame (fun _ => {| r := 1; g := 1; b := 1 |})
                      true Cursor.KeyLeft "#00ffff"%string
                      {| Cursor.width := 3; Cursor.height := 3 |} hands) st)))
    6.
Proof.
  exact (proj2 (proj2
    (cursor_converges (fun _ => {| r := 1; g := 1; b := 1 |}) Cursor.KeyLeft
       "#00ffff"%string {| Cursor.width := 3; Cursor.height := 3 |}
       {| left := {| present := true; x := 1; y := 1; pinch := 1 / 2 |};
          right := absentHand |}
       {| Cursor.position := {| Cursor.vx := 0; Cursor.vy := 0; Cursor.vz := 0 |};
          Cursor.scale := 1;
          Cursor.meshColor := {| r := 1; g := 1; b := 1 |};
          Cursor.lightColor := {| r := 1; g := 1; b := 1 |};
          Cursor.visible := true; Cursor.intensity := 1 |} eq_refl))).
Defined.


(** ** The theremin control *)

(** X23. The ramps of the theremin stay in their ranges.  For hands with [x]
    and [y] in [-1, 1] and pinch in [0, 1], every ramp started in THEREMIN
    mode targets a bass frequency in [50, 150], a bass gain in [0, 0.5], a
    lead frequency in [140, 740], a lead gain of 0 or 0.3 and a vibrato depth
    in [0, 20], with a time constant of 0.05 or, for the fade-out of an
    absent hand, 0.1. *)
Theorem theremin_ranges (bassNodes leadNodes : bool) (hands : TwoHandsData R) :
  -1 <= y (left hands) <= 1 -> 0 <= pinch (left hands) <= 1 ->
  -1 <= x (right hands) <= 1 -> 0 <= pinch (right hands) <= 1 ->
  let c := Theremin.thereminControl true THEREMIN bassNodes leadNodes hands in
  (forall rp, Theremin.bassFrequency c = Some rp ->
     50 <= Theremin.rampTarget rp <= 150 /\ Theremin.timeConstant rp = 5 / 100)
  /\ (forall rp, Theremin.bassGain c = Some rp ->
        0 <= Theremin.rampTarget rp <= 5 / 10
        /\ (Theremin.timeConstant rp = 5 / 100
            \/ Theremin.rampTarget rp = 0 /\ Theremin.timeConstant rp = 1 / 10))
  /\ (forall rp, Theremin.leadFrequency c = Some rp ->
        140 <= Theremin.rampTarget rp <= 740
        /\ Theremin.timeConstant rp = 5 / 100)
  /\ (forall rp, Theremin.leadGain c = Some rp ->
        Theremin.rampTarget rp = 3 / 10 /\ Theremin.timeConstant rp = 5 / 100
        \/ Theremin.rampTarget rp = 0 /\ Theremin.timeConstant rp = 1 / 10)
  /\ (forall rp, Theremin.vibratoGain c = Some rp ->
        0 <= Theremin.rampTarget rp <= 20
        /\ Theremin.timeConstant rp = 5 / 100).
Proof.
  intros Hy Hp Hx Hq. cbv zeta. unfold Theremin.thereminControl. cbn [negb].
  cbn [Theremin.bassFrequency Theremin.bassGain Theremin.leadFrequency
       Theremin.leadGain Theremin.vibratoGain].
  at_R.
  assert (Hmax : 0 <= Rmax 0 (pinch (left hands)) <= 1)
    by (unfold Rmax; destruct (Rle_dec _ _); lra).
  split; [|split; [|split; [|split]]]; intros rp E;
    destruct bassNodes, leadNodes, (present (left hands)), (present (right hands));
    cbn [andb] in E; try discriminate; injection E as <-;
    cbn [Theremin.rampTarget Theremin.timeConstant];
    first [ split; [lra | first [lra | left; lra | right; split; lra]]
          | left; split; lra | right; split; lra ].
Qed.

Lemma theremin_ranges_witness :
  let hands : TwoHandsData R :=
    {| left := {| present := true; x := 0; y := 1; pinch := 1 |};
       right := {| present := true; x := 1; y := 0; pinch := 0 |} |} in
  from_option (fun rp => 50 <= Theremin.rampTarget rp <= 150) False
    (Theremin.bassFrequency
       (Theremin.thereminControl true THEREMIN true true hands)).
Proof.
  refine (proj1 (proj1 (theremin_ranges true true
    {| left := {| present := true; x := 0; y := 1; pinch := 1 |};
       right := {| present := true; x := 1; y := 0; pinch := 0 |} |} _ _ _ _)
    _ eq_refl)); cbn; lra.
Defined.

(** X24. What the theremin leaves alone.  Outside THEREMIN mode, or without
    a listener, no ramp is started.  In THEREMIN mode an absent hand only
    fades its gain to 0 with time constant 0.1: the frequency of its
    oscillator and the vibrato depth get no new target.  The bass gain target
    is never negative, whatever the pinch.  Nodes that do not exist get no
    ramp. *)
Theorem theremin_silence :
  forall (listener : bool) (audioMode : AudioMode) (bassNodes leadNodes : bool)
         (hands : TwoHandsData R),
    let c := Theremin.thereminControl listener audioMode bassNodes leadNodes hands in
    (listener = false \/ audioMode <> THEREMIN -> c = Theremin.noCommands)
    /\ (listener = true -> audioMode = THEREMIN ->
        (present (left hands) = false ->
           Theremin.bassFrequency c = None
           /\ Theremin.bassGain c
              = if bassNodes
                then Some {| Theremin.rampTarget := 0;
                             Theremin.timeConstant := 1 / 10 |}
                else None)
        /\ (present (right hands) = false ->
              Theremin.leadFrequency c = None /\ Theremin.vibratoGain c = None
              /\ Theremin.leadGain c
                 = if leadNodes
                   then Some {| Theremin.rampTarget := 0;
                                Theremin.timeConstant := 1 / 10 |}
                   else None)
        /\ (forall rp, Theremin.bassGain c = Some rp -> 0 <= Theremin.rampTarget rp)
        /\ (bassNodes = false ->
              Theremin.bassFrequency c = None /\ Theremin.bassGain c = None)
        /\ (leadNodes = false ->
              Theremin.leadFrequency c = None /\ Theremin.leadGain c = None
              /\ Theremin.vibratoGain c = None)).
Proof.
  intros listener audioMode bassNodes leadNodes hands. cbv zeta.
  unfold Theremin.thereminControl. split.
  - intros [-> | Hm]; [reflexivity|].
    destruct listener; [|reflexivity]. cbn [negb].
    destruct audioMode; [reflexivity | reflexivity | contradiction].
  - intros -> ->. cbn [negb].
    cbn [Theremin.bassFrequency Theremin.bassGain Theremin.leadFrequency
         Theremin.leadGain Theremin.vibratoGain].
    at_R. split; [|split; [|split; [|split]]].
    + intros ->. rewrite andb_false_r. now destruct bassNodes.
    + intros ->. rewrite andb_false_r. now destruct leadNodes.
    + intros rp. destruct bassNodes; [|discriminate].
      destruct (present (left hands)); intros E; injection E as <-;
        cbn [Theremin.rampTarget]; [|lra].
      pose proof (Rmax_l 0 (pinch (left hands))). lra.
    + intros ->. easy.
    + intros ->. easy.
Qed.


(** ** Instance transforms *)

Lemma instanceTransform_drawn (random : nat -> R)
    (time height twist radiusScale chaos : R) (i drawn : nat) :
  snd (Slices.instanceTransform sin random time height twist radiusScale chaos i drawn)
  = if Rgtb chaos (1 / 100) then S (S drawn) else drawn.
Proof. reflexivity. Qed.

Lemma transformsFrom_count (random : nat -> R)
    (time height twist radiusScale chaos : R) (count : nat) :
  forall i drawn : nat,
    length (fst (Slices.transformsFrom sin random time height twist radiusScale
                   chaos i count drawn)) = count
    /\ snd (Slices.transformsFrom sin random time height twist radiusScale
              chaos i count drawn)
       = if Rgtb chaos (1 / 100) then (drawn + 2 * count)%nat else drawn.
Proof.
  induction count as [|count IH]; intros i drawn.
  - cbn. destruct (Rgtb chaos (1 / 100)); split; try reflexivity; lia.
  - cbn [Slices.transformsFrom].
    pose proof (instanceTransform_drawn random time height twist radiusScale
                  chaos i drawn) as Hd.
    destruct (Slices.instanceTransform sin random time height twist radiusScale
                chaos i drawn) as [tr drawn'].
    cbn [snd] in Hd. subst drawn'.
    specialize (IH (S i) (if Rgtb chaos (1 / 100) then S (S drawn) else drawn)).
    destruct (Slices.transformsFrom sin random time height twist radiusScale
                chaos (S i) count _) as [rest drawn''].
    cbn [fst snd] in *. destruct IH as [IHl IHd]. split; [cbn; lia|].
    rewrite IHd. destruct (Rgtb chaos (1 / 100)); lia.
Qed.

(** X25. Every instance keeps a usable shape: its X and Y scales are the
    same radius, never below 0.1 and never above
    [max(0.1, radiusScale + 0.2)], its Z scale is 1, it is tilted by
    [PI / 2] about X and not at all about Z, and its height along the stack
    is [(i / 60 - 0.5) * height]. *)
Theorem instance_shape :
  forall (random : nat -> R) (time height twist radiusScale chaos : R)
         (i drawn : nat),
    let tr := fst (Slices.instanceTransform sin random time height twist
                     radiusScale chaos i drawn) in
    Slices.scaleX tr = Slices.scaleY tr
    /\ 1 / 10 <= Slices.scaleX tr <= Rmax (1 / 10) (radiusScale + 2 / 10)
    /\ Slices.scaleZ tr = 1
    /\ Slices.rotX tr = PI / 2 /\ Slices.rotZ tr = 0
    /\ Slices.rotY tr = INR i / 60 * twist + time * (2 / 10)
    /\ Slices.posY tr = (INR i / 60 - 5 / 10) * height.
Proof.
  intros random time height twist radiusScale chaos i drawn. cbv zeta.
  unfold Slices.instanceTransform. cbv zeta. cbn [fst].
  cbn [Slices.scaleX Slices.scaleY Slices.scaleZ Slices.rotX Slices.rotY
       Slices.rotZ Slices.posY].
  at_R. change (Z.of_nat CONFIG_sliceCount) with 60%Z.
  rewrite <- INR_IZR_INZ.
  repeat split; try reflexivity.
  - apply Rmax_l.
  - match goal with |- Rmax _ (_ + sin ?a * _) <= _ =>
      pose proof (SIN_bound a) as Hs end.
    apply Rmax_lub; [apply Rmax_l|].
    eapply Rle_trans; [|apply Rmax_r]. lra.
Qed.

(** X26. The random jitter is gated by the chaos spring.  With
    [chaos <= 0.01] an instance draws no random number, stays in the plane
    [z = 0] and is at most [2 * |chaos|] off the axis in X, and the frame
    draws none; with [chaos > 0.01] an instance draws two numbers and, for
    draws in [0, 1), is at most [chaos / 2] off in Z and [2.5 * chaos] off in
    X, and the frame draws 120.  A frame of the mounted mesh writes 60
    transforms; without the mesh it writes and draws nothing. *)
Theorem jitter_is_gated :
  forall (random : nat -> R) (time height twist radiusScale chaos : R)
         (i drawn : nat),
    let tr := fst (Slices.instanceTransform sin random time height twist
                     radiusScale chaos i drawn) in
    let drawn' := snd (Slices.instanceTransform sin random time height twist
                         radiusScale chaos i drawn) in
    (chaos <= 1 / 100 ->
       drawn' = drawn /\ Slices.posZ tr = 0
       /\ Rabs (Slices.posX tr) <= 2 * Rabs chaos)
    /\ (1 / 100 < chaos ->
          drawn' = S (S drawn)
          /\ ((forall k : nat, 0 <= random k < 1) ->
              Rabs (Slices.posZ tr) <= chaos / 2
              /\ Rabs (Slices.posX tr) <= 5 / 2 * chaos))
    /\ (forall (elapsedTime : R) (s : ColorSlices.Springs R),
          let frame := Slices.frameTransforms sin random true elapsedTime s drawn in
          length (fst frame) = 60%nat
          /\ snd frame
             = (if Rgtb (value (ColorSlices.chaos s)) (1 / 100)
                then (drawn + 120)%nat else drawn)
          /\ Slices.frameTransforms sin random false elapsedTime s drawn
             = ([], drawn)).
Proof.
  intros random time height twist radiusScale chaos i drawn. cbv zeta.
  split; [|split].
  - intros Hc. unfold Slices.instanceTransform. cbv zeta. at_R.
    assert (E : Rgtb chaos (1 / 100) = false) by (apply Rgtb_false; lra).
    rewrite E. cbn [fst snd Slices.posX Slices.posZ].
    split; [reflexivity|]. split; [reflexivity|].
    match goal with |- Rabs (0 + sin ?a * _) <= _ =>
      pose proof (SIN_bound a) as Hs; set (sa := sin a) in * end.
    rewrite Rplus_0_l, Rabs_mult, Rabs_mult.
    rewrite (Rabs_pos_eq 2) by lra.
    assert (Hsa : Rabs sa <= 1) by (apply Rabs_le; lra).
    pose proof (Rabs_pos chaos) as Hch. pose proof (Rabs_pos sa) as Hsp.
    assert (Rabs sa * (Rabs chaos * 2) <= 1 * (Rabs chaos * 2))
      by (apply Rmult_le_compat_r; lra).
    lra.
  - intros Hc. unfold Slices.instanceTransform. cbv zeta. at_R.
    assert (E : Rgtb chaos (1 / 100) = true) by (apply Rgtb_true; lra).
    rewrite E. cbn [fst snd Slices.posX Slices.posZ].
    split; [reflexivity|]. intros Hr.
    assert (Hj : forall k, Rabs ((random k - 5 / 10) * chaos) <= chaos / 2).
    { intros k. specialize (Hr k). rewrite Rabs_mult, (Rabs_pos_eq chaos) by lra.
      assert (Rabs (random k - 5 / 10) <= 1 / 2) by (apply Rabs_le; lra).
      assert (Rabs (random k - 5 / 10) * chaos <= 1 / 2 * chaos)
        by (apply Rmult_le_compat_r; lra).
      lra. }
    split.
    + rewrite Rplus_0_l. apply Hj.
    + match goal with |- Rabs (0 + _ + sin ?a * _) <= _ =>
        pose proof (SIN_bound a) as Hs; set (sa := sin a) in * end.
      rewrite Rplus_0_l.
      eapply Rle_trans; [apply Rabs_triang|].
      pose proof (Hj drawn) as Hd.
      assert (H2 : Rabs (sa * (chaos * 2)) <= 2 * chaos).
      { rewrite !Rabs_mult, (Rabs_pos_eq chaos), (Rabs_pos_eq 2) by lra.
        assert (Hsa : Rabs sa <= 1) by (apply Rabs_le; lra).
        assert (Rabs sa * (chaos * 2) <= 1 * (chaos * 2))
          by (apply Rmult_le_compat_r; lra).
        lra. }
      lra.
  - intros elapsedTime s. cbv zeta. unfold Slices.frameTransforms.
    destruct (transformsFrom_count random
                (nmul elapsedTime Slices.CONFIG_animationSpeed)
                (value (ColorSlices.stackHeight s)) (value (ColorSlices.twist s))
                (value (ColorSlices.radiusScale s)) (value (ColorSlices.chaos s))
                CONFIG_sliceCount 0%nat drawn) as [Hl Hd].
    split; [exact Hl|]. split; [|reflexivity]. rewrite Hd. reflexivity.
Qed.


(** ** The material *)

(** X27. The material never drops below its base values: from an index of
    refraction of at least 1.5 and a chromatic aberration of at least 0.05,
    and with a non-negative pinch, step 4 leaves both at least there.  With
    the radius spring at rest and no right hand both fall back towards 1.5
    and 0.05, keeping 0.9 of their excess per frame; and with emotion
    intensity 0 the emissive colour keeps 0.9 of each channel per frame,
    whatever the palette.  A missing material stays missing. *)
Theorem material_floor (parseColor : string -> Color R) (right : HandData R)
    (s : ColorSlices.Springs R) (targetPalette : list string)
    (emotionIntensity : R) (m : Slices.Material R) :
  0 <= pinch right ->
  15 / 10 <= Slices.ior m ->
  5 / 100 <= Slices.chromaticAberration m ->
  exists m' : Slices.Material R,
    Slices.materialUpdate parseColor right s targetPalette emotionIntensity (Some m)
    = Some m'
    /\ 15 / 10 <= Slices.ior m'
    /\ 5 / 100 <= Slices.chromaticAberration m'
    /\ (velocity (ColorSlices.radiusScale s) = 0 -> present right = false ->
        Slices.ior m' - 15 / 10 = 9 / 10 * (Slices.ior m - 15 / 10)
        /\ Slices.chromaticAberration m' - 5 / 100
           = 9 / 10 * (Slices.chromaticAberration m - 5 / 100))
    /\ (emotionIntensity = 0 ->
        r (Slices.emissive m') = 9 / 10 * r (Slices.emissive m)
        /\ g (Slices.emissive m') = 9 / 10 * g (Slices.emissive m)
        /\ b (Slices.emissive m') = 9 / 10 * b (Slices.emissive m))
    /\ Slices.materialUpdate parseColor right s targetPalette emotionIntensity None
       = None.
Proof.
  intros Hp Hi Hc. eexists. split; [reflexivity|].
  unfold MathUtils_lerp, Color_lerp, Slices.Color_multiplyScalar. at_R.
  cbn [Slices.ior Slices.chromaticAberration Slices.emissive r g b].
  pose proof (Rabs_pos (velocity (ColorSlices.radiusScale s))) as Hv.
  set (v := Rabs (velocity (ColorSlices.radiusScale s))) in *.
  assert (Hq : 0 <= (if present right then pinch right else 0))
    by (destruct (present right); lra).
  split; [lra|]. split; [lra|]. split; [|split; [|reflexivity]].
  - intros Hz ->. unfold v. rewrite Hz, Rabs_R0. split; lra.
  - intros ->. repeat split; lra.
Qed.

Lemma material_floor_witness :
  exists m' : Slices.Material R,
    Slices.materialUpdate (fun _ => {| r := 1; g := 1; b := 1 |})
      {| present := true; x := 0; y := 0; pinch := 1 |}
      (@ColorSlices.initialSprings R _) (PALETTES DEFAULT) 0
      (Some {| Slices.ior := 15 / 10; Slices.chromaticAberration := 5 / 100;
               Slices.emissive := {| r := 0; g := 0; b := 0 |} |})
    = Some m'
    /\ 15 / 10 <= Slices.ior m'.
Proof.
  destruct (material_floor (fun _ => {| r := 1; g := 1; b := 1 |})
              {| present := true; x := 0; y := 0; pinch := 1 |}
              (@ColorSlices.initialSprings R _) (PALETTES DEFAULT) 0
              {| Slices.ior := 15 / 10; Slices.chromaticAberration := 5 / 100;
                 Slices.emissive := {| r := 0; g := 0; b := 0 |} |}
              ltac:(cbn; lra) ltac:(cbn; lra) ltac:(cbn; lra))
    as (m' & E & Hi & _).
  exists m'. split; assumption.
Defined.


(** ** Springs across frames *)

Lemma value_energy_limit (s : SpringValue R) :
  stable s -> converges_to (fun n => value (update_n n s)) (target s).
Proof.
  intros Hs eps Heps.
  pose proof (discriminant_pos s Hs) as HD.
  pose proof (weight_pos s Hs) as Hw.
  assert (Hdd : 0 < damping s * damping s)
    by (apply Rmult_lt_0_compat; destruct Hs; lra).
  assert (Hw0 : 0 < weight s).
  { assert (0 < 2 * (damping s * damping s) * (1 + damping s))
      by (apply Rmult_lt_0_compat; destruct Hs; lra). lra. }
  assert (Hy : 0 < eps * eps * discriminant s / weight s).
  { apply Rdiv_lt_0_compat; [|exact Hw0].
    repeat apply Rmult_lt_0_compat; assumption. }
  destruct (lyapunov_vanishes s Hs _ Hy) as [N HN].
  exists N. intros n Hn. apply square_lt_abs; [assumption|].
  specialize (HN n Hn).
  pose proof (lyapunov_lower (update_n n s)) as Hlow.
  destruct (update_n_params n s) as (Et & Ek & Ed).
  assert (ED : discriminant (update_n n s) = discriminant s)
    by (unfold discriminant, weight; now rewrite Ek, Ed).
  assert (EW : weight (update_n n s) = weight s)
    by (unfold weight; now rewrite Ek, Ed).
  rewrite ED, EW, Et in Hlow.
  set (e2 := (value (update_n n s) - target s) * (value (update_n n s) - target s)) in *.
  set (Vn := lyapunov (update_n n s)) in *. set (D := discriminant s) in *.
  set (w := weight s) in *.
  assert (H1 : w * Vn < w * (eps * eps * D / w)) by (apply Rmult_lt_compat_l; lra).
  assert (H2 : w * (eps * eps * D / w) = eps * eps * D) by (field; lra).
  assert (H3 : D * e2 < D * (eps * eps)) by lra.
  apply Rmult_lt_reg_l in H3; assumption.
Qed.

Lemma set_target_same (s : SpringValue R) : set_target (target s) s = s.
Proof. now destruct s. Qed.

Lemma update_n_retarget (T : R) (s : SpringValue R) (n : nat) :
  update (set_target T (update_n n (set_target T s)))
  = update_n (S n) (set_target T s).
Proof.
  rewrite update_n_succ. f_equal.
  destruct (update_n_params n (set_target T s)) as (Et & _ & _).
  cbn in Et. rewrite <- Et at 1. apply set_target_same.
Qed.

Lemma quiet_frames (parseColor : string -> Color R) (input : InputData R)
    (audio : AudioData R) (st : ColorSlices.State R) (n : nat) :
  let t := ColorSlices.calculateTargets (left (hands input)) (right (hands input)) in
  let s := ColorSlices.springs st in
  ColorSlices.springs
    (Nat.iter (S n) (ColorSlices.useFrame parseColor input audio OFF) st)
  = {| ColorSlices.stackHeight :=
         update_n (S n) (set_target (ColorSlices.targetHeight t)
                                    (ColorSlices.stackHeight s));
       ColorSlices.twist :=
         update_n (S n) (set_target (ColorSlices.targetTwist t) (ColorSlices.twist s));
       ColorSlices.radiusScale :=
         update_n (S n) (set_target (ColorSlices.targetRadius t)
                                    (ColorSlices.radiusScale s));
       ColorSlices.chaos :=
         update_n (S n) (set_target (ColorSlices.targetChaos t) (ColorSlices.chaos s)) |}.
Proof.
  cbv zeta. induction n as [|n IH].
  - reflexivity.
  - rewrite Nat.iter_succ.
    set (prev := Nat.iter (S n) (ColorSlices.useFrame parseColor input audio OFF) st) in *.
    unfold ColorSlices.useFrame. cbn [ColorSlices.springs ColorSlices.audioKick].
    rewrite IH. unfold ColorSlices.updateSprings.
    cbn [ColorSlices.stackHeight ColorSlices.twist ColorSlices.radiusScale
         ColorSlices.chaos].
    now rewrite !update_n_retarget.
Qed.

Lemma converges_shift (f g : nat -> R) (T : R) :
  (forall n, g (S n) = f (S n)) -> converges_to f T -> converges_to g T.
Proof.
  intros Hfg Hf eps Heps. destruct (Hf eps Heps) as [N HN].
  exists (S N). intros n Hn. destruct n as [|n]; [lia|].
  rewrite Hfg. apply HN. lia.
Qed.

(** X28. The springs follow the hands.  While the input stays the same and
    the mode is OFF, and with the four springs in the stable range (as the
    component builds them), the four spring values tend to the four targets
    computed from the hands. *)
Theorem springs_follow_hands (parseColor : string -> Color R)
    (input : InputData R) (audio : AudioData R) (st : ColorSlices.State R) :
  stable (ColorSlices.stackHeight (ColorSlices.springs st)) ->
  stable (ColorSlices.twist (ColorSlices.springs st)) ->
  stable (ColorSlices.radiusScale (ColorSlices.springs st)) ->
  stable (ColorSlices.chaos (ColorSlices.springs st)) ->
  let t := ColorSlices.calculateTargets (left (hands input)) (right (hands input)) in
  let frames := fun n =>
    ColorSlices.springs
      (Nat.iter n (ColorSlices.useFrame parseColor input audio OFF) st) in
  converges_to (fun n => value (ColorSlices.stackHeight (frames n)))
               (ColorSlices.targetHeight t)
  /\ converges_to (fun n => value (ColorSlices.twist (frames n)))
                  (ColorSlices.targetTwist t)
  /\ converges_to (fun n => value (ColorSlices.radiusScale (frames n)))
                  (ColorSlices.targetRadius t)
  /\ converges_to (fun n => value (ColorSlices.chaos (frames n)))
                  (ColorSlices.targetChaos t).
Proof.
  intros H1 H2 H3 H4. cbv zeta.
  set (t := ColorSlices.calculateTargets (left (hands input)) (right (hands input))).
  repeat split.
  - apply (converges_shift
             (fun n => value (update_n n (set_target (ColorSlices.targetHeight t)
                        (ColorSlices.stackHeight (ColorSlices.springs st)))))).
    + intros n. now rewrite quiet_frames.
    + apply (value_energy_limit (set_target (ColorSlices.targetHeight t) _)). exact H1.
  - apply (converges_shift
             (fun n => value (update_n n (set_target (ColorSlices.targetTwist t)
                        (ColorSlices.twist (ColorSlices.springs st)))))).
    + intros n. now rewrite quiet_frames.
    + apply (value_energy_limit (set_target (ColorSlices.targetTwist t) _)). exact H2.
  - apply (converges_shift
             (fun n => value (update_n n (set_target (ColorSlices.targetRadius t)
                        (ColorSlices.radiusScale (ColorSlices.springs st)))))).
    + intros n. now rewrite quiet_frames.
    + apply (value_energy_limit (set_target (ColorSlices.targetRadius t) _)). exact H3.
  - apply (converges_shift
             (fun n => value (update_n n (set_target (ColorSlices.targetChaos t)
                        (ColorSlices.chaos (ColorSlices.springs st)))))).
    + intros n. now rewrite quiet_frames.
    + apply (value_energy_limit (set_target (ColorSlices.targetChaos t) _)). exact H4.
Qed.

(** From the initial state, with the left hand raised to the top. *)
Lemma springs_follow_hands_witness :
  let black := fun _ : string => {| r := 0; g := 0; b := 0 |} in
  let input : InputData R :=
    {| hands := {| left := {| present := true; x := 0; y := 1; pinch := 0 |};
                   right := absentHand |};
       face := newFace |} in
  converges_to
    (fun n => value (ColorSlices.stackHeight (ColorSlices.springs
       (Nat.iter n (ColorSlices.useFrame black input
                      {| low := 0; high := 0; vol := 0 |} OFF)
                 (ColorSlices.initialState black true)))))
    (ColorSlices.targetHeight
       (ColorSlices.calculateTargets (left (hands input)) (right (hands input)))).
Proof.
  refine (proj1 (springs_follow_hands (fun _ => {| r := 0; g := 0; b := 0 |})
    {| hands := {| left := {| present := true; x := 0; y := 1; pinch := 0 |};
                   right := absentHand |};
       face := newFace |}
    {| low := 0; high := 0; vol := 0 |}
    (ColorSlices.initialState (fun _ => {| r := 0; g := 0; b := 0 |}) true)
    _ _ _ _)); unfold stable; at_R; cbn; at_R; lra.
Defined.

(** X29. The idle component is at rest: without hands and without a face,
    the initial state is a fixed point of the frame in mode OFF and in any
    mode with [low <= 0.4], mounted or not. *)
Theorem idle_frame_is_fixed_point :
  forall (parseColor : string -> Color R) (audio : AudioData R)
         (audioMode : AudioMode) (mounted : bool),
    (audioMode = OFF \/ low audio <= 4 / 10) ->
    ColorSlices.useFrame parseColor initialInputData audio audioMode
      (ColorSlices.initialState parseColor mounted)
    = ColorSlices.initialState parseColor mounted.
Proof.
  intros parseColor audio audioMode mounted Hq.
  assert (E : ColorSlices.useFrame parseColor initialInputData audio audioMode
                (ColorSlices.initialState parseColor mounted)
              = ColorSlices.useFrame parseColor initialInputData audio OFF
                  (ColorSlices.initialState parseColor mounted)).
  { destruct Hq as [-> | Hlow]; [reflexivity|].
    unfold ColorSlices.useFrame, ColorSlices.audioKick. at_R.
    assert (El : Rgtb (low audio) (4 / 10) = false) by (apply Rgtb_false; lra).
    rewrite El. now destruct audioMode. }
  rewrite E. unfold ColorSlices.useFrame, ColorSlices.initialState.
  cbn [ColorSlices.springs ColorSlices.currentPaletteRef ColorSlices.meshRef
       ColorSlices.targetPaletteRef ColorSlices.audioKick].
  f_equal.
  - unfold ColorSlices.updateSprings, ColorSlices.calculateTargets,
      ColorSlices.initialSprings, update, set_target, new_SpringValue,
      initialInputData, newHands, absentHand, CONFIG_stackHeight.
    at_R. cbn. f_equal; f_equal; lra.
  - destruct mounted; [|reflexivity].
    exact (blendLoop_at_target parseColor CONFIG_sliceCount (PALETTES DEFAULT)).
Qed.

Lemma idle_frame_is_fixed_point_witness :
  ColorSlices.useFrame (fun _ => {| r := 0; g := 0; b := 0 |})
    initialInputData {| low := 1; high := 1; vol := 1 |} OFF
    (ColorSlices.initialState (fun _ => {| r := 0; g := 0; b := 0 |}) true)
  = ColorSlices.initialState (fun _ => {| r := 0; g := 0; b := 0 |}) true.
Proof.
  exact (idle_frame_is_fixed_point (fun _ => {| r := 0; g := 0; b := 0 |})
           {| low := 1; high := 1; vol := 1 |} OFF true (or_introl eq_refl)).
Defined.


(** ** Failure of the hand logic *)

Section HandFailure.
Context {A : Type} `{Number A}.

Lemma detection_none (res : HandLandmarkerResult A) (i : nat)
    (lms : list (NormalizedLandmark A)) :
  detection res i lms = None <-> unreadable res i lms.
Proof.
  unfold detection, unreadable.
  destruct (handedness res !! i) as [[|c cats]|] eqn:Eh; cbn.
  - split; [intros _; now right; right | reflexivity].
  - destruct (lms !! 8%nat) as [indexTip|] eqn:E8; cbn.
    + destruct (lms !! 4%nat) as [thumbTip|] eqn:E4; cbn.
      * split; [discriminate|]. intros [Hl | [Hn | Hn]]; try discriminate.
        apply lookup_lt_Some in E8. lia.
      * apply lookup_ge_None in E4. apply lookup_lt_Some in E8. lia.
    + split; [|reflexivity]. intros _. left. now apply lookup_ge_None in E8.
  - split; [intros _; now right; left | reflexivity].
Qed.

Lemma handLoop_none (res : HandLandmarkerResult A)
    (rest : list (list (NormalizedLandmark A))) :
  forall (i : nat) (acc : TwoHandsData A),
    handLoop res i rest acc = None
    <-> exists (j : nat) (lms : list (NormalizedLandmark A)),
          rest !! j = Some lms /\ unreadable res (i + j) lms.
Proof.
  induction rest as [|lms rest IH]; intros i acc; cbn [handLoop].
  - split; [discriminate|]. intros (j & l & Hj & _). discriminate.
  - rewrite handStep_detection.
    destruct (detection res i lms) as [d|] eqn:Ed; cbn.
    + rewrite IH. split.
      * intros (j & l & Hj & Hu). exists (S j), l. split; [exact Hj|].
        now replace (i + S j)%nat with (S i + j)%nat by lia.
      * intros (j & l & Hj & Hu). destruct j as [|j].
        -- cbn in Hj. injection Hj as <-. rewrite Nat.add_0_r in Hu.
           apply detection_none in Hu. congruence.
        -- exists j, l. split; [exact Hj|].
           now replace (S i + j)%nat with (i + S j)%nat by lia.
    + split; [|reflexivity]. intros _. exists 0%nat, lms.
      split; [reflexivity|]. rewrite Nat.add_0_r. now apply detection_none.
Qed.
End HandFailure.

(** X30. When the hand logic gives up.  Without a landmark list both hands
    are published absent.  With one, the loop throws, and the frame
    publishes nothing, exactly when some detected hand is unreadable: its
    landmark array is too short to hold entry 8, or its handedness entry is
    missing or empty. *)
Theorem hand_logic_failure :
  forall (A : Type) (N : Number A) (res : HandLandmarkerResult A),
    (landmarks res = None -> handLogic res = Some newHands)
    /\ (forall all : list (list (NormalizedLandmark A)),
          landmarks res = Some all ->
          (handLogic res = None
           <-> exists (i : nat) (lms : list (NormalizedLandmark A)),
                 all !! i = Some lms /\ unreadable res i lms)).
Proof.
  intros A N res. unfold handLogic. split.
  - now intros ->.
  - intros all ->. apply (handLoop_none res all 0%nat newHands).
Qed.

(** A hand with three landmarks only, on doubles. *)
Example hand_logic_failure_float :
  handLogic
    {| landmarks := Some [replicate 3 {| lm_x := 0.5; lm_y := 0.5 |}]%float;
       handedness := [[{| categoryName := "Left"; score := 1%float |}]] |}
  = None.
Proof. reflexivity. Qed.

(** The idle frame and the soft score lookup on doubles: a NaN score counts
    as 0. *)
Example idle_frame_float :
  let black := fun _ : string => {| r := 0; g := 0; b := 0 |}%float in
  ColorSlices.springs
    (ColorSlices.useFrame black initialInputData
       {| low := 1; high := 1; vol := 1 |}%float OFF
       (ColorSlices.initialState black true))
  = ColorSlices.springs (ColorSlices.initialState black true).
Proof. vm_compute. reflexivity. Qed.

Example getScore_nan_float :
  getScore [ {| categoryName := "jawOpen"; score := PrimFloat.nan |} ] "jawOpen"
  = 0%float.
Proof. vm_compute. reflexivity. Qed.
